(** * downloadYoutubeSrts: caption downloader

    A shallow embedding of [src/scrapers/downloadYoutubeSrts.py] and the
    properties of its identifier extractor and of its row dispatcher. *)

From Stdlib Require Import ZArith NArith List Ascii String Bool Lia.
From stdpp Require Import base option list gmap.

Local Open Scope N_scope.

(** ** Python strings

    A Python [str] is a sequence of Unicode code points.  A code point is a
    number; literals of the source are written with [lit]. *)

Abbreviation str := (list N).

Fixpoint lit (s : string) : str :=
  match s with
  | EmptyString => []
  | String a s' => N_of_ascii a :: lit s'
  end.
Arguments lit s%_string.

(** [Py_UNICODE_ISSPACE]: the code points [str.strip()] trims and the
    class [\s] of a [str] pattern matches. *)
Definition isspace (c : N) : bool :=
  ((9 <=? c) && (c <=? 13)) || ((28 <=? c) && (c <=? 32))
  || (c =? 133) || (c =? 160) || (c =? 5760)
  || ((8192 <=? c) && (c <=? 8202))
  || (c =? 8232) || (c =? 8233) || (c =? 8239) || (c =? 8287)
  || (c =? 12288).

(** [s.startswith(p)], returning what follows the prefix. *)
Fixpoint strip_prefix (p s : str) : option str :=
  match p, s with
  | [], _ => Some s
  | a :: p', b :: s' => if a =? b then strip_prefix p' s' else None
  | _ :: _, [] => None
  end.

(** [needle in s] for two strings. *)
Fixpoint contains (needle s : str) : bool :=
  match strip_prefix needle s with
  | Some _ => true
  | None => match s with [] => false | _ :: s' => contains needle s' end
  end.

(** [s.strip()]: leading and trailing whitespace removed. *)
Fixpoint lstrip (s : str) : str :=
  match s with
  | c :: s' => if isspace c then lstrip s' else s
  | [] => []
  end.

Definition rstrip (s : str) : str := rev (lstrip (rev s)).

Definition strip (s : str) : str := rstrip (lstrip s).

(** ** Python values

    What a caller may hand to [get_video_id]: [None], a boolean, a number, a
    string or a list of strings. *)

Inductive value : Type :=
| VNone
| VBool (b : bool)
| VInt (z : Z)
| VStr (s : str)
| VList (l : list str).

(** Truth value of an object, as [not x] and [if x] compute it. *)
Definition truthy (v : value) : bool :=
  match v with
  | VNone => false
  | VBool b => b
  | VInt z => negb (z =? 0)%Z
  | VStr s => negb (bool_decide (s = []))
  | VList l => negb (bool_decide (l = []))
  end.

(** [isinstance(v, str)] *)
Definition is_str (v : value) : bool :=
  match v with VStr _ => true | _ => false end.

(** ** Regular expressions

    The fragment of [re] the three patterns are written in: literal text
    (escapes resolved), alternation, concatenation, one capturing group and
    the greedy [[^...]+].  [match_here] is the backtracking matcher of [re]:
    alternatives are tried left to right, [+] takes the longest run first and
    gives characters back while the rest of the pattern fails. *)

Inductive cset_item : Type :=
| CChr (c : N)      (* a character *)
| CSpace.           (* \s *)

Definition in_item (i : cset_item) (c : N) : bool :=
  match i with
  | CChr d => c =? d
  | CSpace => isspace c
  end.

Definition in_set (items : list cset_item) (c : N) : bool :=
  existsb (fun i => in_item i c) items.

Inductive regex : Type :=
| Lit (s : str)
| Alt (r1 r2 : regex)
| Cat (r1 r2 : regex)
| Group (r : regex)
| PlusNot (items : list cset_item).

Section Matcher.
Context {A : Type}.

Fixpoint star_not (items : list cset_item) (s : str) (k : str -> option A)
  : option A :=
  match s with
  | c :: s' =>
      if in_set items c then k s
      else match star_not items s' k with
           | Some a => Some a
           | None => k s
           end
  | [] => k s
  end.

Definition plus_not (items : list cset_item) (s : str) (k : str -> option A)
  : option A :=
  match s with
  | c :: s' => if in_set items c then None else star_not items s' k
  | [] => None
  end.

Fixpoint match_here (r : regex) (s : str) (g : option str)
    (k : str -> option str -> option A) : option A :=
  match r with
  | Lit p =>
      match strip_prefix p s with
      | Some s' => k s' g
      | None => None
      end
  | Alt r1 r2 =>
      match match_here r1 s g k with
      | Some a => Some a
      | None => match_here r2 s g k
      end
  | Cat r1 r2 => match_here r1 s g (fun s' g' => match_here r2 s' g' k)
  | Group r1 =>
      match_here r1 s g
        (fun s' _ => k s' (Some (take (length s - length s')%nat s)))
  | PlusNot items => plus_not items s (fun s' => k s' g)
  end.
End Matcher.

(** [re.search(r, s)]: the match at the leftmost position that has one.
    The result is the match object, reduced to its [group(1)]. *)
Fixpoint re_search (r : regex) (s : str) : option (option str) :=
  match match_here r s None (fun _ g => Some g) with
  | Some g => Some g
  | None =>
      match s with
      | [] => None
      | _ :: s' => re_search r s'
      end
  end.

(** ** get_video_id *)

Definition amp : N := 38.   (* & *)

Definition patterns : list regex :=
  [ Cat (Alt (Lit (lit "youtube.com/watch?v=")) (Lit (lit "youtu.be/")))
        (Group (PlusNot [CChr amp; CSpace]));
    Cat (Lit (lit "youtube.com/embed/")) (Group (PlusNot [CChr amp; CSpace]));
    Cat (Lit (lit "youtube.com/v/")) (Group (PlusNot [CChr amp; CSpace])) ].

(** The [for pattern in patterns] loop. *)
Fixpoint first_match (ps : list regex) (url : str) : option str :=
  match ps with
  | [] => None
  | p :: ps' =>
      match re_search p url with
      | Some m => m
      | None => first_match ps' url
      end
  end.

Definition get_video_id (url : value) : option str :=
  if negb (truthy url) || negb (is_str url) then None
  else match url with
       | VStr s => first_match patterns s
       | _ => None
       end.


(** ** Rows

    A row of [csv.DictReader] is a dict.  Its keys are the column names of
    the header; the field of a column that a short line does not reach is
    [None].  The fields of a long line beyond the header are kept, as a list,
    under the key [None]: a row has that key exactly when [surplus] is not
    empty.  [row !! key] looks a column name up. *)

Record Row : Type := MkRow {
  fields : gmap (list N) (option (list N));
  surplus : list (list N);
}.

Global Instance row_eq_dec : EqDecision Row.
Proof. solve_decision. Defined.

Global Instance row_lookup : Lookup (list N) (option (list N)) Row :=
  λ key row, fields row !! key.

(** [key in row] *)
Definition has_key (key : str) (row : Row) : bool :=
  bool_decide (is_Some (row !! key)).

(** [row.get(key)]: the field, [None] also when the column is missing. *)
Definition row_get (row : Row) (key : str) : option str :=
  match row !! key with
  | Some field => field
  | None => None
  end.

(** [if field] for a field, which is a string or [None]. *)
Definition field_truthy (field : option str) : bool :=
  match field with
  | Some (_ :: _) => true
  | Some [] | None => false
  end.

(** ** The operating system

    What the script asks of its environment: [os.path.exists],
    [os.makedirs(_, exist_ok=True)], [subprocess.run] and reading the CSV
    file.  The state [fs] of the file system is abstract; a process that runs
    may change it in any way. *)

Inductive run_result : Type :=
| Completed (returncode : Z)      (* a CompletedProcess *)
| TimeoutExpired                  (* subprocess.TimeoutExpired *)
| Failed (e : str).               (* any other exception, with str(e) *)

Class OS : Type := {
  fs : Type;
  (** [os.path.exists(path)] *)
  path_exists : fs → str → bool;
  (** [os.makedirs(path, exist_ok=True)]; [None] when it raises *)
  makedirs : str → fs → option fs;
  (** [subprocess.run(cmd, capture_output=True, timeout=timeout)] *)
  subprocess_run : list str → Z → fs → run_result * fs;
  (** [list(csv.DictReader(open(path, encoding='utf-8')))]; [None] when
      opening, decoding or parsing raises *)
  read_csv : str → fs → option (list Row);
}.

(** Lines of the console output that carry data; the banners and the other
    fixed lines are left out. *)
Inductive line : Type :=
| PNoTool                                   (* Error: yt-dlp is not installed *)
| PLoaded (n : nat)                         (* Loaded n rows from CSV *)
| PReadError                                (* Error reading CSV *)
| PNoColumn (url_column : str)              (* Column '...' not found in CSV *)
| PSkippingFullText (n : nat)               (* Skipping n videos (fullText ...) *)
| PFound (video_count : nat)                (* Found n YouTube videos needing captions *)
| PNothingToDo                              (* All videos already have captions ... *)
| PInvalid (idx video_count : nat)          (* [idx/n] Invalid URL *)
| PSkipped (idx video_count : nat) (video_id : str)
                                            (* [idx/n] id... Skipped (exists) *)
| PSuccess (idx video_count : nat) (video_id message : str)
                                            (* [idx/n] id... (check mark) message *)
| PFailure (idx video_count : nat) (video_id message : str)
                                            (* [idx/n] id... (cross) message *)
| PSummary (total_videos video_count success_count skip_count error_count : nat)
| PFileNotFound (csv_file : str)            (* File not found: ... *)
| PComplete                                 (* Processing complete! *)
| PProcessingFailed.                        (* Processing failed *)

(** The state the script runs in: the file system, the commands handed to
    [subprocess.run] so far (a ghost trace, oldest first), and the console
    output (oldest first). *)
Record world `{OS} : Type := World {
  w_fs : fs;
  w_calls : list (list str);
  w_out : list line;
}.

(** A computation either returns a value or ends in an exception that
    nothing caught. *)
Inductive result `{OS} (A : Type) : Type :=
| Ok (a : A) (w : world)
| Raise (w : world).
Arguments Ok {_ _} a w.
Arguments Raise {_ _} w.

Definition M `{OS} (A : Type) : Type := world → result A.

Definition ret `{OS} {A} (a : A) : M A := λ w, Ok a w.

Definition bind `{OS} {A B} (m : M A) (k : A → M B) : M B :=
  λ w, match m w with
       | Ok a w' => k a w'
       | Raise w' => Raise w'
       end.

Notation "'let*' x ':=' m 'in' k" := (bind m (λ x, k))
  (at level 10, x name, m at level 100, k at level 200, only parsing).
Notation "m '>>' k" := (bind m (λ _, k))
  (at level 100, k at level 200, right associativity, only parsing).

Definition os_path_exists `{OS} (path : str) : M bool :=
  λ w, Ok (path_exists (w_fs w) path) w.

Definition os_makedirs `{OS} (path : str) : M unit :=
  λ w, match makedirs path (w_fs w) with
       | Some f => Ok tt (World _ f (w_calls w) (w_out w))
       | None => Raise w
       end.

Definition run `{OS} (cmd : list str) (timeout : Z) : M run_result :=
  λ w, let '(r, f) := subprocess_run cmd timeout (w_fs w) in
       Ok r (World _ f (w_calls w ++ [cmd]) (w_out w)).

Definition open_csv `{OS} (path : str) : M (option (list Row)) :=
  λ w, Ok (read_csv path (w_fs w)) w.

(** An exception that nothing catches. *)
Definition raise `{OS} {A} : M A := λ w, Raise w.

Definition print `{OS} (l : line) : M unit :=
  λ w, Ok tt (World _ (w_fs w) (w_calls w) (w_out w ++ [l])).

(** [os.path.join(a, b)] of [posixpath]. *)
Definition slash : N := 47.

Definition starts_with_slash (s : str) : bool :=
  match s with
  | c :: _ => c =? slash
  | [] => false
  end.

Definition ends_with_slash (s : str) : bool :=
  match last s with
  | Some c => c =? slash
  | None => false
  end.

Definition path_join (a b : str) : str :=
  if starts_with_slash b then b
  else if bool_decide (a = []) || ends_with_slash a then a ++ b
  else a ++ slash :: b.

(** ** download_captions *)

Definition expected_file (output_dir video_id language : str) : str :=
  path_join output_dir (video_id ++ lit "." ++ language ++ lit ".srt").

Definition ytdlp_cmd (language output_base video_url : str) : list str :=
  [ lit "yt-dlp";
    lit "--skip-download";
    lit "--write-subs";
    lit "--write-auto-subs";
    lit "--sub-lang"; language;
    lit "--sub-format"; lit "srt";
    lit "--convert-subs"; lit "srt";
    lit "-o"; output_base;
    video_url ].

Definition download_captions `{OS}
    (video_url video_id output_dir language : str) : M (bool * str) :=
  let expected := expected_file output_dir video_id language in
  let* found := os_path_exists expected in
  if found then ret (true, lit "Caption file already exists")
  else
    os_makedirs output_dir >>
    let output_base := path_join output_dir video_id in
    let cmd := ytdlp_cmd language output_base video_url in
    let* result := run cmd 60 in
    match result with
    | Completed returncode =>
        let* written := os_path_exists expected in
        if (returncode =? 0)%Z && written then ret (true, lit "Downloaded")
        else ret (false, lit "No captions available")
    | TimeoutExpired => ret (false, lit "Timeout")
    | Failed e => ret (false, lit "Error: " ++ e)
    end.

(** ** process_csv *)

Record counters : Type := Counters {
  success_count : nat;
  skip_count : nat;
  error_count : nat;
}.

(** [len(rows) > 0 and column in rows[0]] *)
Definition has_column (rows : list Row) (column : str) : bool :=
  match rows with
  | row0 :: _ => has_key column row0
  | [] => false
  end.

Definition is_youtube_video (row : Row) : bool :=
  bool_decide (row_get row (lit "kind") = Some (lit "video"))
  && bool_decide (row_get row (lit "source") = Some (lit "YouTube")).

(** The category filter: [filtered_rows] before the fullText step. *)
Definition category_filter (url_column : str) (rows : list Row) : list Row :=
  let has_kind_source :=
    has_column rows (lit "kind") && has_column rows (lit "source") in
  if has_kind_source then List.filter is_youtube_video rows
  else List.filter (λ row, field_truthy (row_get row url_column)) rows.

(** [not row.get('fullText') or row.get('fullText').strip() == ''] *)
Definition needs_captions (row : Row) : bool :=
  negb (field_truthy (row_get row (lit "fullText")))
  || match row_get row (lit "fullText") with
     | Some text => bool_decide (strip text = [])
     | None => false
     end.

(** The body of the loop over the rows that need captions. *)
Definition process_row `{OS} (captions_dir url_column : str)
    (video_count idx : nat) (row : Row) (c : counters) : M counters :=
  match row_get row url_column with
  | None | Some [] => ret c                                 (* continue *)
  | Some url =>
      match get_video_id (VStr url) with
      | None | Some [] =>
          print (PInvalid idx video_count) >>
          ret (Counters (success_count c) (skip_count c) (S (error_count c)))
      | Some video_id =>
          let* outcome :=
            download_captions url video_id captions_dir (lit "en") in
          let '(success, message) := outcome in
          if success then
            if contains (lit "already exists") message then
              print (PSkipped idx video_count video_id) >>
              ret (Counters (success_count c) (S (skip_count c)) (error_count c))
            else
              print (PSuccess idx video_count video_id message) >>
              ret (Counters (S (success_count c)) (skip_count c) (error_count c))
          else
            print (PFailure idx video_count video_id message) >>
            ret (Counters (success_count c) (skip_count c) (S (error_count c)))
      end
  end.

(** [for idx, row in enumerate(filtered_rows, start=idx)] *)
Fixpoint process_rows `{OS} (captions_dir url_column : str)
    (video_count idx : nat) (rows : list Row) (c : counters) : M counters :=
  match rows with
  | [] => ret c
  | row :: rest =>
      let* c' := process_row captions_dir url_column video_count idx row c in
      process_rows captions_dir url_column video_count (S idx) rest c'
  end.

(** [', '.join(rows[0].keys())] raises a [TypeError] when the first row has
    the key [None]: [has_surplus] tells whether it has. *)
Definition has_surplus (rows : list Row) : bool :=
  match rows with
  | row0 :: _ => negb (bool_decide (surplus row0 = []))
  | [] => false
  end.

(** The part of [process_csv] that follows the loading of the rows. *)
Definition dispatch `{OS} (rows : list Row) (captions_dir url_column : str)
  : M bool :=
  if (0 <? length rows)%nat && negb (has_column rows url_column) then
    print (PNoColumn url_column) >>
    (* the line of the available columns, [', '.join(rows[0].keys())] *)
    if has_surplus rows then raise else ret false
  else
    let has_fulltext := has_column rows (lit "fullText") in
    let filtered_rows := category_filter url_column rows in
    let total_videos := length filtered_rows in
    let* filtered_rows :=
      if has_fulltext then
        let videos_needing_captions := List.filter needs_captions filtered_rows in
        let already_have_captions :=
          (total_videos - length videos_needing_captions)%nat in
        (if (0 <? already_have_captions)%nat
         then print (PSkippingFullText already_have_captions)
         else ret tt) >>
        ret videos_needing_captions
      else ret filtered_rows in
    let video_count := length filtered_rows in
    print (PFound video_count) >>
    if (video_count =? 0)%nat then print PNothingToDo >> ret true
    else
      let* c := process_rows captions_dir url_column video_count 1
                  filtered_rows (Counters 0 0 0) in
      print (PSummary total_videos video_count
               (success_count c) (skip_count c) (error_count c)) >>
      ret true.

Definition process_csv `{OS} (csv_file captions_dir url_column : str) : M bool :=
  let* probe := run [lit "yt-dlp"; lit "--version"] 5 in
  match probe with
  | Completed 0 =>
      let* loaded := open_csv csv_file in
      match loaded with
      | Some rows =>
          print (PLoaded (length rows)) >>
          dispatch rows captions_dir url_column
      | None => print PReadError >> ret false
      end
  | _ => print PNoTool >> ret false
  end.

(** ** main

    [getenv] is the environment and [argv] is [sys.argv].  The result is
    the argument of [sys.exit]. *)

Definition os_getenv (getenv : str → option str) (name fallback : str) : str :=
  match getenv name with
  | Some v => v
  | None => fallback
  end.

Definition main `{OS} (getenv : str → option str) (argv : list str) : M Z :=
  let brain_dir := os_getenv getenv (lit "BRAIN_DIR") (lit "../brain") in
  let input_dir := os_getenv getenv (lit "INPUT_DIR") (lit "../input") in
  let brain_name := os_getenv getenv (lit "MIT_BRAIN") (lit "mit_brain") in
  let csv_file :=
    match argv !! 1%nat with
    | Some a => a
    | None => brain_dir ++ lit "/" ++ brain_name ++ lit ".csv"
    end in
  let captions_dir :=
    match argv !! 2%nat with
    | Some a => a
    | None => input_dir ++ lit "/captions"
    end in
  let* found := os_path_exists csv_file in
  if negb found then print (PFileNotFound csv_file) >> ret 1%Z
  else
    let* success := process_csv csv_file captions_dir (lit "url") in
    if success then print PComplete >> ret 0%Z
    else print PProcessingFailed >> ret 1%Z.

(** The exit status of the interpreter: the argument of [sys.exit], or 1
    after the traceback of an exception that nothing caught. *)
Definition exit_status `{OS} (r : result Z) : Z :=
  match r with
  | Ok code _ => code
  | Raise _ => 1%Z
  end.

Definition final_world `{OS} {A} (r : result A) : world :=
  match r with
  | Ok _ w => w
  | Raise w => w
  end.

(** ** A file system in memory

    An instance of [OS] for running the script on concrete inputs.  A
    regular file is known by its path and by the rows [csv.DictReader] reads
    from it; [makedirs] raises when the path is empty and when the path, or a
    part of it, is a regular file, as [os.makedirs] does.  The external tool
    is a parameter. *)

Record mem_fs : Type := MemFs {
  files : list (list N * list Row);
  dirs : list (list N);
}.

Definition mem_is_file (f : mem_fs) (path : str) : bool :=
  existsb (λ entry, bool_decide (entry.1 = path)) (files f).

Definition mem_exists (f : mem_fs) (path : str) : bool :=
  mem_is_file f path || bool_decide (path ∈ dirs f).

(** [path] is [file] or lies below it. *)
Definition below (file path : str) : bool :=
  match strip_prefix file path with
  | Some [] => true
  | Some (c :: _) => c =? slash
  | None => false
  end.

Definition mem_makedirs (path : str) (f : mem_fs) : option mem_fs :=
  if bool_decide (path = []) then None
  else if existsb (λ entry, below entry.1 path) (files f) then None
  else Some (MemFs (files f) (path :: dirs f)).

Definition mem_read_csv (path : str) (f : mem_fs) : option (list Row) :=
  snd <$> List.find (λ entry, bool_decide (entry.1 = path)) (files f).

Definition mem_os
    (tool : list str → Z → mem_fs → run_result * mem_fs) : OS :=
  {| fs := mem_fs;
     path_exists := mem_exists;
     makedirs := mem_makedirs;
     subprocess_run := tool;
     read_csv := mem_read_csv |}.

(** A stub of the tool that always succeeds: it exits with 0 and, asked for
    subtitles, writes the file named after its [-o] and [--sub-lang]
    arguments. *)
Definition stub_tool (cmd : list str) (timeout : Z) (f : mem_fs)
  : run_result * mem_fs :=
  match cmd !! 5%nat, cmd !! 11%nat with
  | Some language, Some output_base =>
      (Completed 0,
       MemFs ((output_base ++ lit "." ++ language ++ lit ".srt", []) :: files f)
             (dirs f))
  | _, _ => (Completed 0, f)
  end.

(** A tool that exits with 0 and writes nothing. *)
Definition silent_tool (cmd : list str) (timeout : Z) (f : mem_fs)
  : run_result * mem_fs := (Completed 0, f).

(** A tool that is not installed. *)
Definition missing_tool (cmd : list str) (timeout : Z) (f : mem_fs)
  : run_result * mem_fs := (Failed (lit "No such file or directory"), f).

Definition mem_world (tool : list str → Z → mem_fs → run_result * mem_fs)
    (f : mem_fs) : @world (mem_os tool) :=
  @World (mem_os tool) f [] [].

(** A row from its fields, as [dict(zip(fieldnames, line))] for a line as
    long as the header: of two columns of one name the later one stays. *)
Definition row_of (entries : list (string * string)) : Row :=
  MkRow (foldl (λ m kv, <[lit kv.1 := Some (lit kv.2)]> m) ∅ entries) [].

(** Rows for the examples: a YouTube video with an address, one whose
    address is empty and one whose line stops before the address. *)
Definition row_with_url : Row :=
  row_of [("url", "https://youtu.be/abc123"); ("kind", "video");
          ("source", "YouTube")]%string.

Definition row_empty_url : Row :=
  row_of [("url", ""); ("kind", "video"); ("source", "YouTube")]%string.

Definition row_short : Row :=
  MkRow (<[lit "url" := None]>
           (fields (row_of [("kind", "video"); ("source", "YouTube")]%string)))
        [].

(** A line with one field more than the header, which has no [url]. *)
Definition row_long : Row :=
  MkRow (fields (row_of [("kind", "video"); ("source", "YouTube")]%string))
        [lit "extra"].

(** The rows of the scenario of three rows: another source, a transcript
    already there, and a video that needs captions. *)
Definition row_vimeo : Row :=
  row_of [("url", "https://vimeo.com/1234"); ("kind", "video");
          ("source", "Vimeo"); ("fullText", "")]%string.

Definition row_transcribed : Row :=
  row_of [("url", "https://youtu.be/def456"); ("kind", "video");
          ("source", "YouTube"); ("fullText", "hello")]%string.

Definition row_eligible : Row :=
  row_of [("url", "https://youtu.be/abc123"); ("kind", "video");
          ("source", "YouTube"); ("fullText", "  ")]%string.

Definition scenario_rows : list Row :=
  [row_vimeo; row_transcribed; row_eligible].

(** A file system that holds the CSV file [brain.csv] with one video. *)
Definition brain_fs : mem_fs := MemFs [(lit "brain.csv", [row_with_url])] [].

(** A file system that holds the captions of the video already. *)
Definition captioned_fs : mem_fs :=
  MemFs [(lit "captions/abc123.en.srt", [])] [].
(** ** What the extractor computes

    The three patterns have one form: a prefix out of a short list of
    alternatives, then the identifier.  [shapes] lists the prefixes of each
    pattern, in the order of [patterns]. *)

Definition delim (c : N) : bool := (c =? amp) || isspace c.

Definition shapes : list (list str) :=
  [ [lit "youtube.com/watch?v="; lit "youtu.be/"];
    [lit "youtube.com/embed/"];
    [lit "youtube.com/v/"] ].

(** The pattern of a shape: its prefixes as alternatives, then the group. *)
Fixpoint alternatives (p : str) (ps : list str) : regex :=
  match ps with
  | [] => Lit p
  | q :: qs => Alt (Lit p) (alternatives q qs)
  end.

Definition shape_regex (shape : list str) : regex :=
  match shape with
  | p :: ps => Cat (alternatives p ps) (Group (PlusNot [CChr amp; CSpace]))
  | [] => Group (PlusNot [CChr amp; CSpace])
  end.

(** [id] is the identifier at the head of [s]: it is not empty, holds no
    delimiter, and ends where [s] ends or where its first delimiter is. *)
Definition ident_of (s id : str) : Prop :=
  id ≠ [] ∧ Forall (λ c, delim c = false) id ∧
  ∃ rest, s = id ++ rest ∧ (rest = [] ∨ ∃ c r, rest = c :: r ∧ delim c = true).

(** A prefix of [shape] stands in [url] after [pre] and is followed by the
    identifier [id]. *)
Definition occurs (shape : list str) (url pre id : str) : Prop :=
  ∃ pfx tail, pfx ∈ shape ∧ url = pre ++ pfx ++ tail ∧ ident_of tail id.

Definition shape_matches (shape : list str) (url : str) : Prop :=
  ∃ pre id, occurs shape url pre id.

(** The occurrence that starts first. *)
Definition first_occurrence (shape : list str) (url id : str) : Prop :=
  ∃ pre, occurs shape url pre id ∧
         ∀ pre' id', occurs shape url pre' id' → (length pre ≤ length pre')%nat.

(** The longest delimiter-free prefix of [s], and what follows it. *)
Fixpoint span (s : str) : str :=
  match s with
  | c :: s' => if delim c then [] else c :: span s'
  | [] => []
  end.

Fixpoint after_span (s : str) : str :=
  match s with
  | c :: s' => if delim c then s else after_span s'
  | [] => []
  end.

(** The identifier one attempt of the matcher at the head of [s] finds. *)
Fixpoint id_here (shape : list str) (s : str) : option str :=
  match shape with
  | [] => None
  | p :: ps =>
      match strip_prefix p s with
      | Some t =>
          match span t with
          | [] => id_here ps s
          | id => Some id
          end
      | None => id_here ps s
      end
  end.

Fixpoint id_search (shape : list str) (s : str) : option str :=
  match id_here shape s with
  | Some id => Some id
  | None =>
      match s with
      | [] => None
      | _ :: s' => id_search shape s'
      end
  end.

(** The loop over the patterns, through the prefixes of each. *)
Fixpoint shape_search (shs : list (list str)) (url : str) : option str :=
  match shs with
  | [] => None
  | sh :: shs' =>
      match id_search sh url with
      | Some id => Some id
      | None => shape_search shs' url
      end
  end.


(** No string starts with two different prefixes of [shape]. *)
Definition exclusive (shape : list str) : Prop :=
  ∀ p q t u, p ∈ shape → q ∈ shape → p ++ t = q ++ u → p = q.

(** ** Outcomes of a row

    The outcomes of [download_captions], under the names of the data model. *)

Definition Downloaded : bool * str := (true, lit "Downloaded").
Definition AlreadyExists : bool * str := (true, lit "Caption file already exists").
Definition NoCaptionsAvailable : bool * str := (false, lit "No captions available").

Definition count_success (c : counters) : counters :=
  Counters (S (success_count c)) (skip_count c) (error_count c).
Definition count_skip (c : counters) : counters :=
  Counters (success_count c) (S (skip_count c)) (error_count c).
Definition count_error (c : counters) : counters :=
  Counters (success_count c) (skip_count c) (S (error_count c)).

(** The world after one more line of output. *)
Definition printed `{OS} (w : world) (l : line) : world :=
  World _ (w_fs w) (w_calls w) (w_out w ++ [l]).

(** ** The filters, as predicates on rows *)

(** The first row, and with it every row read from the file, has [column]. *)
Definition column_present (rows : list Row) (column : str) : Prop :=
  ∃ row0, head rows = Some row0 ∧ is_Some (row0 !! column).

Definition is_youtube (row : Row) : Prop :=
  row !! lit "kind" = Some (Some (lit "video")) ∧
  row !! lit "source" = Some (Some (lit "YouTube")).

Definition has_url (url_column : str) (row : Row) : Prop :=
  ∃ url, row !! url_column = Some (Some url) ∧ url ≠ [].

(** The row has a transcript: its [fullText] is not empty once trimmed. *)
Definition has_text (row : Row) : Prop :=
  ∃ text, row !! lit "fullText" = Some (Some text) ∧ strip text ≠ [].

Global Instance has_url_dec url_column row : Decision (has_url url_column row).
Proof.
  unfold has_url. destruct (row !! url_column) as [[[|c url]|]|] eqn:Hrow.
  - right. intros (url & [= <-] & ?). done.
  - left. by exists (c :: url).
  - right. by intros (url & [=] & _).
  - right. by intros (url & [=] & _).
Defined.

Global Instance has_text_dec row : Decision (has_text row).
Proof.
  unfold has_text. destruct (row !! lit "fullText") as [[text|]|] eqn:Hrow.
  - destruct (decide (strip text = [])) as [Hs|Hs].
    + right. intros (t & [= <-] & ?). done.
    + left. by exists text.
  - right. by intros (t & [=] & _).
  - right. by intros (t & [=] & _).
Defined.

(** The command the loop hands to the tool for [row], when it does. *)
Definition row_command (captions_dir url_column : str) (row : Row)
    (cmd : list str) : Prop :=
  ∃ url video_id,
    row_get row url_column = Some url ∧
    get_video_id (VStr url) = Some video_id ∧
    cmd = ytdlp_cmd (lit "en") (path_join captions_dir video_id) url.

Definition total (c : counters) : nat :=
  (success_count c + skip_count c + error_count c)%nat.

(** The lines that report the filters, and the world after them. *)
Definition report_lines (has_fulltext : bool) (skipped needing : nat)
  : list line :=
  (if has_fulltext && (0 <? skipped)%nat
   then [PSkippingFullText skipped] else [])
  ++ [PFound needing].

Definition report_filters `{OS} (w : world) (has_fulltext : bool)
    (skipped needing : nat) : world :=
  World _ (w_fs w) (w_calls w)
    (w_out w ++ report_lines has_fulltext skipped needing).

(** ** Running the dispatcher twice *)

(** Every path of [f] is still there in [f']. *)
Definition preserved `{OS} (f f' : fs) : Prop :=
  ∀ path, path_exists f path = true → path_exists f' path = true.

(** The tool is a stub that always succeeds: whatever subtitles it is asked
    for, it exits with 0, has written the file named after its [-o] and
    [--sub-lang] arguments, and has removed nothing. *)
Definition tool_always_succeeds (os : OS) : Prop :=
  ∀ language output_base url timeout f,
    ∃ f', subprocess_run (ytdlp_cmd language output_base url) timeout f
          = (Completed 0, f') ∧
          path_exists f' (output_base ++ lit "." ++ language ++ lit ".srt") = true ∧
          preserved f f'.

(** Creating a directory removes nothing. *)
Definition makedirs_keeps_files (os : OS) : Prop :=
  ∀ path f f', makedirs path f = Some f' → preserved f f'.

Definition bump (c : counters) (ds dk de : nat) : counters :=
  Counters (success_count c + ds) (skip_count c + dk) (error_count c + de).

(** What a line of the first run becomes in the second: a download is now a
    skip. *)
Definition second_run_line (l : line) : line :=
  match l with
  | PSuccess idx video_count video_id _ => PSkipped idx video_count video_id
  | PSummary total_videos video_count success skip error =>
      PSummary total_videos video_count 0 (success + skip) error
  | _ => l
  end.

(** ** The fail-fast conditions *)

Definition probe_cmd : list str := [lit "yt-dlp"; lit "--version"].

(** The arguments [main] passes to [process_csv]. *)
Definition csv_file_arg (getenv : str → option str) (argv : list str) : str :=
  match argv !! 1%nat with
  | Some a => a
  | None => os_getenv getenv (lit "BRAIN_DIR") (lit "../brain") ++ lit "/"
            ++ os_getenv getenv (lit "MIT_BRAIN") (lit "mit_brain") ++ lit ".csv"
  end.

Definition captions_dir_arg (getenv : str → option str) (argv : list str) : str :=
  match argv !! 2%nat with
  | Some a => a
  | None => os_getenv getenv (lit "INPUT_DIR") (lit "../input") ++ lit "/captions"
  end.

(** One of the conditions that end the run before the loop: the CSV file is
    not there, the version probe of the tool fails, the file cannot be read,
    or it has rows and no address column.  The file is read in the file system
    the probe leaves. *)
Definition fail_fast `{OS} (csv_file url_column : str) (f : fs) : Prop :=
  path_exists f csv_file = false ∨
  (subprocess_run probe_cmd 5 f).1 ≠ Completed 0 ∨
  read_csv csv_file (subprocess_run probe_cmd 5 f).2 = None ∨
  ∃ rows, read_csv csv_file (subprocess_run probe_cmd 5 f).2 = Some rows ∧
          rows ≠ [] ∧ ¬ column_present rows url_column.

(** Creating a directory never raises. *)
Definition makedirs_total (os : OS) : Prop :=
  ∀ path f, is_Some (makedirs path f).

(** ** The lines of the loop *)

(** The position and the count a line of the loop shows, [[idx/n]]. *)
Definition line_index (l : line) : option (nat * nat) :=
  match l with
  | PInvalid idx n | PSkipped idx n _ | PSuccess idx n _ _
  | PFailure idx n _ _ => Some (idx, n)
  | _ => None
  end.

(** The positions, counted from [idx], of the rows that have an address. *)
Fixpoint url_positions (url_column : str) (idx : nat) (rows : list Row)
  : list nat :=
  match rows with
  | [] => []
  | row :: rest =>
      if decide (has_url url_column row)
      then idx :: url_positions url_column (S idx) rest
      else url_positions url_column (S idx) rest
  end.

(** The message of a run that did not complete. *)
Definition failure_message (r : run_result) : str :=
  match r with
  | Completed _ => lit "No captions available"
  | TimeoutExpired => lit "Timeout"
  | Failed e => lit "Error: " ++ e
  end.

(** The conditions under which [process_csv] gives up: the version probe
    fails, the file cannot be read, or it has rows and no address column. *)
Definition gives_up `{OS} (csv_file url_column : str) (f : fs) : Prop :=
  (subprocess_run probe_cmd 5 f).1 ≠ Completed 0 ∨
  read_csv csv_file (subprocess_run probe_cmd 5 f).2 = None ∨
  ∃ rows, read_csv csv_file (subprocess_run probe_cmd 5 f).2 = Some rows ∧
          rows ≠ [] ∧ has_column rows url_column = false.

(** The caption file of every row that has an address and an identifier is
    there. *)
Definition all_captioned `{OS} (captions_dir url_column : str)
    (rows : list Row) (f : fs) : Prop :=
  ∀ row url video_id,
    row ∈ rows → row_get row url_column = Some url →
    get_video_id (VStr url) = Some video_id →
    path_exists f (expected_file captions_dir video_id (lit "en")) = true.

(** The letter y, with which every prefix of the patterns starts. *)
Definition letter_y : N := 121.

(** A line that reports no download: no success line, and no summary with a
    download in it. *)
Definition reports_no_download (l : line) : bool :=
  match l with
  | PSuccess _ _ _ _ => false
  | PSummary _ _ (S _) _ _ => false
  | _ => true
  end.

(** A tool that never answers in time. *)
Definition slow_tool (cmd : list str) (timeout : Z) (f : mem_fs)
  : run_result * mem_fs := (TimeoutExpired, f).

(** * The scenarios of the specification, run *)

Example get_video_id_short :
  get_video_id (VStr (lit "https://youtu.be/abc123")) = Some (lit "abc123").
Proof. reflexivity. Qed.

Example get_video_id_watch :
  get_video_id (VStr (lit "https://www.youtube.com/watch?v=dQw4&t=10"))
  = Some (lit "dQw4").
Proof. reflexivity. Qed.

Example get_video_id_none :
  get_video_id (VStr (lit "https://vimeo.com/1234")) = None.
Proof. reflexivity. Qed.

(** A prefix with nothing usable after it is passed over. *)
Example get_video_id_skips_empty :
  get_video_id (VStr (lit "youtube.com/watch?v=&x youtu.be/abc")) = Some (lit "abc").
Proof. reflexivity. Qed.

Example expected_file_short :
  expected_file (lit "captions") (lit "abc123") (lit "en")
  = lit "captions/abc123.en.srt".
Proof. reflexivity. Qed.

Example strip_spaces : strip (lit "  a b ") = lit "a b".
Proof. reflexivity. Qed.

(** Three rows, one of another source and one with its transcript: the
    third alone is attempted. *)
Example scenario_three_rows :
  w_out (final_world
           (@dispatch (mem_os stub_tool) scenario_rows (lit "captions") (lit "url")
              (mem_world stub_tool (MemFs [] []))))
  = [PSkippingFullText 1; PFound 1;
     PSuccess 1 1 (lit "abc123") (lit "Downloaded");
     PSummary 2 1 1 0 0].
Proof. by vm_compute. Qed.

(** The tool exits with 0 and writes no file: no captions, an error. *)
Example scenario_no_file :
  w_out (final_world
           (@dispatch (mem_os silent_tool) [row_with_url] (lit "captions") (lit "url")
              (mem_world silent_tool (MemFs [] []))))
  = [PFound 1;
     PFailure 1 1 (lit "abc123") (lit "No captions available");
     PSummary 1 1 0 0 1].
Proof. by vm_compute. Qed.

(** The tool is missing: the run fails before it reads the file. *)
Example scenario_no_tool :
  @main (mem_os missing_tool) (λ _, None) [lit "downloadYoutubeSrts.py"; lit "brain.csv"]
    (mem_world missing_tool brain_fs)
  = Ok 1%Z (@World (mem_os missing_tool) brain_fs [probe_cmd]
              [PNoTool; PProcessingFailed]).
Proof. by vm_compute. Qed.

(** The category filter compares letter for letter. *)
Example category_filter_case :
  category_filter (lit "url")
    [row_of [("url", "https://youtu.be/abc123"); ("kind", "Video");
             ("source", "YouTube")]%string;
     row_of [("url", "https://youtu.be/abc123"); ("kind", "video");
             ("source", "youtube")]%string]
  = [].
Proof. by vm_compute. Qed.

(** Rows without the address column whose first line is longer than the
    header: the line that lists the columns raises, and the script ends
    with the traceback. *)
Example scenario_surplus_fields :
  @dispatch (mem_os stub_tool) [row_long] (lit "captions") (lit "url")
    (mem_world stub_tool (MemFs [] []))
  = Raise (@World (mem_os stub_tool) (MemFs [] []) [] [PNoColumn (lit "url")]).
Proof. by vm_compute. Qed.

(** Of two columns of one name the later one is the field of the row. *)
Example row_of_repeated_column :
  row_get (row_of [("url", "a"); ("url", "b")]%string) (lit "url")
  = Some (lit "b").
Proof. by vm_compute. Qed.

(** * Properties of the identifier extractor *)

(** [shapes] describes [patterns]. *)
Lemma patterns_of_shapes : patterns = shape_regex <$> shapes.
Proof. reflexivity. Qed.

Lemma strip_prefix_Some (p s t : str) :
  strip_prefix p s = Some t ↔ s = p ++ t.
Proof.
  revert s. induction p as [|a p IH]; intros s; simpl.
  - split; congruence.
  - destruct s as [|b s]; [split; discriminate|].
    destruct (N.eqb_spec a b) as [->|Hne].
    + rewrite IH. split; congruence.
    + split; [discriminate | congruence].
Qed.

Lemma strip_prefix_app (p t : str) : strip_prefix p (p ++ t) = Some t.
Proof. by apply strip_prefix_Some. Qed.

Lemma in_set_delim (c : N) : in_set [CChr amp; CSpace] c = delim c.
Proof. unfold in_set, delim. simpl. by rewrite orb_false_r. Qed.

Lemma span_after_span (s : str) : span s ++ after_span s = s.
Proof.
  induction s as [|c s IH]; simpl; [done|].
  destruct (delim c); simpl; congruence.
Qed.

Lemma span_no_delim (s : str) : Forall (λ c, delim c = false) (span s).
Proof.
  induction s as [|c s IH]; simpl; [constructor|].
  destruct (delim c) eqn:Hc; by constructor.
Qed.

Lemma after_span_delim (s : str) :
  after_span s = [] ∨ ∃ c r, after_span s = c :: r ∧ delim c = true.
Proof.
  induction s as [|c s IH]; simpl; [by left|].
  destruct (delim c) eqn:Hc; [right; eauto | done].
Qed.

Lemma span_app_delim (id rest : str) :
  Forall (λ c, delim c = false) id →
  (rest = [] ∨ ∃ c r, rest = c :: r ∧ delim c = true) →
  span (id ++ rest) = id.
Proof.
  intros Hid Hrest. induction Hid as [|c id Hc _ IH]; simpl.
  - destruct Hrest as [->|(c & r & -> & Hc)]; simpl; [done | by rewrite Hc].
  - by rewrite Hc, IH.
Qed.

(** The identifier at the head of a string is its span, when that is not
    empty. *)
Lemma ident_of_span (s id : str) : ident_of s id ↔ span s = id ∧ id ≠ [].
Proof.
  split.
  - intros (Hne & Hid & rest & -> & Hrest). split; [|done].
    by apply span_app_delim.
  - intros [<- Hne]. split; [done|]. split; [apply span_no_delim|].
    exists (after_span s). split; [by rewrite span_after_span|].
    apply after_span_delim.
Qed.

Lemma take_span (s : str) :
  take (length s - length (after_span s)) s = span s.
Proof.
  rewrite <- (span_after_span s) at 1 3.
  rewrite length_app.
  replace (length (span s) + length (after_span s) - length (after_span s))%nat
    with (length (span s)) by lia.
  by rewrite take_app_length.
Qed.

(** A greedy run whose continuation accepts every rest takes the whole
    span. *)
Lemma star_not_total {A} (f : str → A) (s : str) :
  star_not [CChr amp; CSpace] s (λ t, Some (f t)) = Some (f (after_span s)).
Proof.
  induction s as [|c s IH]; [done|].
  cbn [star_not after_span]. rewrite in_set_delim.
  destruct (delim c); [done|]. by rewrite IH.
Qed.

Lemma match_group (s : str) (g : option str) :
  match_here (Group (PlusNot [CChr amp; CSpace])) s g (λ _ g', Some g')
  = match span s with
    | [] => None
    | id => Some (Some id)
    end.
Proof.
  cbn [match_here]. unfold plus_not.
  destruct s as [|c s]; [done|].
  rewrite in_set_delim. cbn [span].
  destruct (delim c) eqn:Hc; [done|].
  rewrite (star_not_total (λ t, Some (take (length (c :: s) - length t) (c :: s)))).
  f_equal. f_equal.
  pose proof (take_span (c :: s)) as Ht.
  cbn [after_span span] in Ht. rewrite Hc in Ht. exact Ht.
Qed.

Lemma match_one (p s : str) :
  match_here (Cat (Lit p) (Group (PlusNot [CChr amp; CSpace]))) s None
    (λ _ g, Some g)
  = Some <$> id_here [p] s.
Proof.
  cbn [match_here id_here].
  destruct (strip_prefix p s) as [t|]; [|done].
  pose proof (match_group t None) as Hg. cbn [match_here] in Hg.
  rewrite Hg. by destruct (span t).
Qed.

Lemma match_two (p q s : str) :
  match_here (Cat (Alt (Lit p) (Lit q)) (Group (PlusNot [CChr amp; CSpace])))
    s None (λ _ g, Some g)
  = Some <$> id_here [p; q] s.
Proof.
  pose proof (match_one p s) as Hp. pose proof (match_one q s) as Hq.
  cbn [match_here id_here] in *.
  rewrite Hp. clear Hp.
  destruct (strip_prefix p s) as [t|].
  - destruct (span t); [|done]. simpl. rewrite Hq.
    destruct (strip_prefix q s) as [u|]; [|done]. by destruct (span u).
  - simpl. rewrite Hq.
    destruct (strip_prefix q s) as [u|]; [|done]. by destruct (span u).
Qed.

Lemma re_search_shape (r : regex) (shape : list str) :
  (∀ s, match_here r s None (λ _ g, Some g) = Some <$> id_here shape s) →
  ∀ s, re_search r s = Some <$> id_search shape s.
Proof.
  intros Hr s. induction s as [|c s IH]; cbn [re_search id_search]; rewrite Hr.
  - by destruct (id_here shape []).
  - destruct (id_here shape (c :: s)); [done|]. simpl. exact IH.
Qed.

Lemma first_match_shapes (url : str) :
  first_match patterns url = shape_search shapes url.
Proof.
  unfold patterns, shapes. cbn [first_match shape_search].
  rewrite (re_search_shape _ _ (match_two _ _)).
  rewrite !(re_search_shape _ _ (match_one _)).
  repeat match goal with |- context [id_search ?sh url] =>
    destruct (id_search sh url); simpl; try done end.
Qed.

Lemma get_video_id_str (url : str) :
  get_video_id (VStr url) = shape_search shapes url.
Proof.
  rewrite <- first_match_shapes.
  destruct url as [|c url]; [done|].
  unfold get_video_id. cbn [truthy is_str].
  by rewrite bool_decide_eq_false_2.
Qed.

(** ** One attempt at the head of the string *)

Lemma id_here_Some (shape : list str) (s id : str) :
  id_here shape s = Some id →
  ∃ pfx tail, pfx ∈ shape ∧ s = pfx ++ tail ∧ ident_of tail id.
Proof.
  induction shape as [|p ps IH]; [discriminate|].
  cbn [id_here].
  destruct (strip_prefix p s) as [t|] eqn:Hp.
  - destruct (span t) as [|c id0] eqn:Ht.
    + intros (pfx & tail & ? & ? & ?)%IH. exists pfx, tail. set_solver.
    + intros [= <-]. exists p, t. split; [set_solver|].
      split; [by apply strip_prefix_Some|].
      apply ident_of_span. by rewrite Ht.
  - intros (pfx & tail & ? & ? & ?)%IH. exists pfx, tail. set_solver.
Qed.

Lemma id_here_None (shape : list str) (s : str) :
  id_here shape s = None →
  ∀ pfx tail id, pfx ∈ shape → s = pfx ++ tail → ¬ ident_of tail id.
Proof.
  induction shape as [|p ps IH]; intros Hnone pfx tail id Hin Hs Hid.
  - by apply elem_of_nil in Hin.
  - cbn [id_here] in Hnone.
    apply elem_of_cons in Hin as [->|Hin].
    + subst s. rewrite strip_prefix_app in Hnone.
      apply ident_of_span in Hid as [Hsp Hne].
      rewrite Hsp in Hnone. by destruct id.
    + destruct (strip_prefix p s) as [t|]; [destruct (span t)|]; try done;
        by apply (IH Hnone pfx tail id).
Qed.

Lemma occurs_nil (shape : list str) (s id : str) :
  occurs shape s [] id ↔
  ∃ pfx tail, pfx ∈ shape ∧ s = pfx ++ tail ∧ ident_of tail id.
Proof. done. Qed.

Lemma occurs_cons (shape : list str) (c : N) (s pre id : str) :
  occurs shape (c :: s) (c :: pre) id ↔ occurs shape s pre id.
Proof.
  unfold occurs. split; intros (pfx & tail & ? & Hs & ?); exists pfx, tail.
  - simpl in Hs. by simplify_eq.
  - simpl. by subst.
Qed.

Lemma occurs_head (shape : list str) (c d : N) (s pre id : str) :
  occurs shape (c :: s) (d :: pre) id → d = c.
Proof. intros (pfx & tail & ? & Hs & ?). simpl in Hs. congruence. Qed.

(** ** The search over the positions *)

Lemma id_search_Some (shape : list str) (s id : str) :
  id_search shape s = Some id → first_occurrence shape s id.
Proof.
  induction s as [|c s IH]; cbn [id_search].
  - destruct (id_here shape []) as [id'|] eqn:Hh; [|discriminate].
    intros [= <-]. exists []. split; [by apply occurs_nil, id_here_Some|].
    intros; simpl; lia.
  - destruct (id_here shape (c :: s)) as [id'|] eqn:Hh.
    + intros [= <-]. exists []. split; [by apply occurs_nil, id_here_Some|].
      intros; simpl; lia.
    + intros (pre & Hocc & Hmin)%IH. exists (c :: pre).
      split; [by apply occurs_cons|].
      intros [|d pre'] id' Hocc'.
      * apply occurs_nil in Hocc' as (pfx & tail & ? & ? & ?).
        by destruct (id_here_None _ _ Hh pfx tail id').
      * pose proof (occurs_head _ _ _ _ _ _ Hocc') as ->.
        apply occurs_cons in Hocc'. apply Hmin in Hocc'. simpl. lia.
Qed.

Lemma id_search_None (shape : list str) (s : str) :
  id_search shape s = None → ¬ shape_matches shape s.
Proof.
  induction s as [|c s IH]; cbn [id_search].
  - destruct (id_here shape []) eqn:Hh; [discriminate|].
    intros _ ([|d pre] & id & Hocc).
    + apply occurs_nil in Hocc as (pfx & tail & ? & ? & ?).
      by destruct (id_here_None _ _ Hh pfx tail id).
    + destruct Hocc as (pfx & tail & ? & Hs & ?). discriminate.
  - destruct (id_here shape (c :: s)) eqn:Hh; [discriminate|].
    intros Hs ([|d pre] & id & Hocc).
    + apply occurs_nil in Hocc as (pfx & tail & ? & ? & ?).
      by destruct (id_here_None _ _ Hh pfx tail id).
    + pose proof (occurs_head _ _ _ _ _ _ Hocc) as ->.
      apply occurs_cons in Hocc. apply (IH Hs). by exists pre, id.
Qed.

Lemma id_search_no_match (shape : list str) (s : str) :
  ¬ shape_matches shape s → id_search shape s = None.
Proof.
  intros Hno. destruct (id_search shape s) as [id|] eqn:Hs; [|done].
  destruct Hno. apply id_search_Some in Hs as (pre & Hocc & _).
  by exists pre, id.
Qed.

Lemma occurs_functional (shape : list str) (url pre id id' : str) :
  exclusive shape →
  occurs shape url pre id → occurs shape url pre id' → id = id'.
Proof.
  intros Hex (p & t & Hp & Hurl & Hid) (q & u & Hq & Hurl' & Hid').
  rewrite Hurl in Hurl'. apply app_inv_head in Hurl'.
  pose proof (Hex p q t u Hp Hq Hurl') as ->.
  apply app_inv_head in Hurl' as ->.
  apply ident_of_span in Hid as [<- _]. by apply ident_of_span in Hid' as [<- _].
Qed.

Lemma occurs_prefix (shape : list str) (url pre id : str) :
  occurs shape url pre id → take (length pre) url = pre.
Proof. intros (p & t & _ & -> & _). by rewrite take_app_length. Qed.

Lemma first_occurrence_search (shape : list str) (url id : str) :
  exclusive shape →
  first_occurrence shape url id → id_search shape url = Some id.
Proof.
  intros Hex (pre & Hocc & Hmin).
  destruct (id_search shape url) as [id'|] eqn:Hs.
  - apply id_search_Some in Hs as (pre' & Hocc' & Hmin').
    assert (length pre = length pre') as Hlen.
    { apply Nat.le_antisymm; [by eapply Hmin | by eapply Hmin']. }
    assert (pre = pre') as <-.
    { rewrite <- (occurs_prefix _ _ _ _ Hocc), <- (occurs_prefix _ _ _ _ Hocc').
      by rewrite Hlen. }
    f_equal. by eapply occurs_functional.
  - apply id_search_None in Hs. destruct Hs. by exists pre, id.
Qed.

Lemma shapes_exclusive (shape : list str) : shape ∈ shapes → exclusive shape.
Proof.
  unfold shapes. rewrite !elem_of_cons, elem_of_nil.
  intros [->|[->|[->|[]]]] p q t u; rewrite !elem_of_cons, !elem_of_nil;
    intros Hp Hq; destruct_or!; subst; try done; simpl; discriminate.
Qed.

(** ** The loop over the shapes *)

Lemma shape_search_None (shs : list (list str)) (url : str) :
  Forall (λ sh, ¬ shape_matches sh url) shs → shape_search shs url = None.
Proof.
  induction 1 as [|sh shs Hsh _ IH]; [done|].
  cbn [shape_search]. by rewrite (id_search_no_match _ _ Hsh).
Qed.

Lemma shape_search_first (shs1 shs2 : list (list str)) (sh : list str)
    (url id : str) :
  Forall (λ sh', ¬ shape_matches sh' url) shs1 →
  exclusive sh → first_occurrence sh url id →
  shape_search (shs1 ++ sh :: shs2) url = Some id.
Proof.
  intros Hno Hex Hfirst. induction Hno as [|sh' shs1 Hsh _ IH]; simpl.
  - by rewrite (first_occurrence_search _ _ _ Hex Hfirst).
  - by rewrite (id_search_no_match _ _ Hsh).
Qed.

Lemma shape_search_Some (shs : list (list str)) (url id : str) :
  shape_search shs url = Some id →
  ∃ sh, sh ∈ shs ∧ first_occurrence sh url id.
Proof.
  induction shs as [|sh shs IH]; [discriminate|].
  cbn [shape_search]. destruct (id_search sh url) as [id'|] eqn:Hs.
  - intros [= <-]. exists sh. split; [set_solver | by apply id_search_Some].
  - intros (sh' & ? & ?)%IH. exists sh'. set_solver.
Qed.

Lemma shape_search_is_Some (shs : list (list str)) (sh : list str) (url : str) :
  sh ∈ shs → shape_matches sh url → is_Some (shape_search shs url).
Proof.
  induction shs as [|sh' shs IH]; [by intros ?%elem_of_nil|].
  intros Hin Hm. cbn [shape_search].
  destruct (id_search sh' url) as [id|] eqn:Hs; [by eexists|].
  apply elem_of_cons in Hin as [->|Hin]; [|by apply IH].
  by apply id_search_None in Hs.
Qed.

(** ** The extractor *)

(** C1.  [get_video_id] returns none for every input that is not a
    non-empty string and for every string that none of the three shapes
    matches; for a string that some shape matches it returns the identifier
    of the first occurrence of the first shape, in the order of [patterns],
    that matches: the characters after the prefix up to, and without, the
    first ampersand or whitespace character. *)
Theorem get_video_id_spec :
  (∀ v, (∀ s, v = VStr s → s = []) → get_video_id v = None) ∧
  (∀ url, Forall (λ sh, ¬ shape_matches sh url) shapes →
          get_video_id (VStr url) = None) ∧
  (∀ url n sh id,
     shapes !! n = Some sh →
     (∀ m sh', (m < n)%nat → shapes !! m = Some sh' → ¬ shape_matches sh' url) →
     first_occurrence sh url id →
     get_video_id (VStr url) = Some id).
Proof.
  split; [|split].
  - intros [|b|z|s|l] Hv; unfold get_video_id; cbn [is_str negb];
      rewrite ?orb_true_r; try done.
    by rewrite (Hv s eq_refl).
  - intros url Hno. rewrite get_video_id_str. by apply shape_search_None.
  - intros url n sh id Hn Hbefore Hfirst. rewrite get_video_id_str.
    rewrite <- (take_drop_middle _ _ _ Hn).
    apply shape_search_first; [|apply shapes_exclusive|done].
    + apply Forall_forall. intros sh' Hin.
      apply list_elem_of_lookup in Hin as [m Hm].
      pose proof (lookup_lt_Some _ _ _ Hm) as Hlt.
      rewrite length_take in Hlt.
      rewrite lookup_take_lt in Hm by lia.
      apply (Hbefore m); [lia | done].
    + apply list_elem_of_lookup. by exists n.
Qed.

Lemma get_video_id_Some (v : value) (id : str) :
  get_video_id v = Some id →
  (∃ url, v = VStr url ∧ url ≠ []) ∧ id ≠ [] ∧ Forall (λ c, delim c = false) id.
Proof.
  intros Hv.
  destruct v as [|b|z|url|l];
    try (unfold get_video_id in Hv; cbn [is_str negb] in Hv;
         rewrite ?orb_true_r in Hv; discriminate).
  split; [exists url; split; [done|]; by intros ->|].
  rewrite get_video_id_str in Hv.
  apply shape_search_Some in Hv as (sh & _ & pre & Hocc & _).
  by destruct Hocc as (pfx & tail & _ & _ & Hne & Hid & _).
Qed.

(** C10.  Whatever the input, [get_video_id] returns none or a string that
    is not empty and holds neither an ampersand nor a whitespace
    character. *)
Theorem get_video_id_well_formed (v : value) :
  get_video_id v = None ∨
  ∃ id, get_video_id v = Some id ∧ id ≠ [] ∧
        Forall (λ c, c ≠ amp ∧ isspace c = false) id.
Proof.
  destruct (get_video_id v) as [id|] eqn:Hv; [right | by left].
  exists id. split; [done|].
  apply get_video_id_Some in Hv as (_ & Hne & Hid).
  split; [done|].
  eapply Forall_impl; [exact Hid|]. intros c Hc. unfold delim in Hc.
  apply orb_false_elim in Hc as [Hamp Hsp]. split; [|done].
  by apply N.eqb_neq.
Qed.

(** C9.  The patterns are searched for anywhere in the input: a string
    that holds one of the four prefixes at any place, followed by a character
    that is neither an ampersand nor whitespace, yields an identifier, as do
    an address of another domain and a text around an address. *)
Theorem get_video_id_unanchored :
  (∀ pre pfx c rest,
     pfx ∈ [lit "youtube.com/watch?v="; lit "youtu.be/";
            lit "youtube.com/embed/"; lit "youtube.com/v/"] →
     delim c = false →
     ∃ id, get_video_id (VStr (pre ++ pfx ++ c :: rest)) = Some id) ∧
  get_video_id (VStr (lit "notyoutube.com/watch?v=x")) = Some (lit "x") ∧
  get_video_id (VStr (lit "see https://youtu.be/abc123 for details"))
  = Some (lit "abc123").
Proof.
  split; [|by split].
  intros pre pfx c rest Hpfx Hc. rewrite get_video_id_str.
  assert (∃ sh, sh ∈ shapes ∧ pfx ∈ sh) as (sh & Hsh & Hin).
  { unfold shapes. rewrite !elem_of_cons, elem_of_nil in Hpfx.
    destruct Hpfx as [->|[->|[->|[->|[]]]]];
      [ exists [lit "youtube.com/watch?v="; lit "youtu.be/"]
      | exists [lit "youtube.com/watch?v="; lit "youtu.be/"]
      | exists [lit "youtube.com/embed/"]
      | exists [lit "youtube.com/v/"] ];
      split; repeat constructor. }
  apply (shape_search_is_Some _ sh); [done|].
  exists pre, (span (c :: rest)), pfx, (c :: rest).
  split; [done|]. split; [done|].
  apply ident_of_span. split; [done|]. simpl. by rewrite Hc.
Qed.

(** * Properties of the filters *)

Lemma filter_bool {A} (f : A → bool) (P : A → Prop) `{∀ x, Decision (P x)}
    (l : list A) :
  (∀ x, f x = true ↔ P x) → List.filter f l = filter P l.
Proof.
  intros Hf. induction l as [|x l IH]; [done|].
  cbn [List.filter]. rewrite filter_cons, IH.
  destruct (f x) eqn:Hx, (decide (P x)) as [HP|HP]; try done.
  - by apply Hf in Hx.
  - apply Hf in HP. congruence.
Qed.

Lemma filter_split_length {A} (P : A → Prop) `{∀ x, Decision (P x)} (l : list A) :
  (length (filter P l) + length (filter (λ x, ¬ P x) l))%nat = length l.
Proof.
  induction l as [|x l IH]; [done|].
  rewrite !filter_cons. destruct (decide (P x)), (decide (¬ P x)); simpl; try lia;
    tauto.
Qed.

Lemma has_column_present (rows : list Row) (column : str) :
  has_column rows column = true ↔ column_present rows column.
Proof.
  unfold has_column, column_present, has_key. destruct rows as [|row0 rows]; simpl.
  - split; [done | by intros (? & [=] & _)].
  - rewrite bool_decide_eq_true. split; [by exists row0|].
    by intros (? & [= <-] & ?).
Qed.

Lemma is_youtube_video_spec (row : Row) :
  is_youtube_video row = true ↔ is_youtube row.
Proof.
  unfold is_youtube_video, is_youtube, row_get.
  rewrite andb_true_iff, !bool_decide_eq_true.
  destruct (row !! lit "kind") as [[k|]|], (row !! lit "source") as [[s|]|];
    split; intros [Hk Hs]; split; congruence.
Qed.

Lemma field_truthy_spec (url_column : str) (row : Row) :
  field_truthy (row_get row url_column) = true ↔ has_url url_column row.
Proof.
  unfold field_truthy, has_url, row_get.
  destruct (row !! url_column) as [[[|c url]|]|].
  - split; [done|]. by intros (url & [= <-] & Hne).
  - split; [|done]. intros _. by exists (c :: url).
  - split; [done|]. by intros (url & [=] & _).
  - split; [done|]. by intros (url & [=] & _).
Qed.

Lemma needs_captions_spec (row : Row) :
  needs_captions row = true ↔ ¬ has_text row.
Proof.
  unfold needs_captions, has_text, field_truthy, row_get.
  destruct (row !! lit "fullText") as [[[|c text]|]|]; cbn [negb orb].
  - split; [|done]. intros _ (t & [= <-] & Ht). by destruct Ht.
  - rewrite bool_decide_eq_true. split.
    + intros Hs (t & [= <-] & Ht). done.
    + intros Hno. destruct (decide (strip (c :: text) = [])) as [|Hs]; [done|].
      destruct Hno. by exists (c :: text).
  - split; [|done]. by intros _ (t & [=] & _).
  - split; [|done]. by intros _ (t & [=] & _).
Qed.

Lemma lstrip_spaces (s : str) : lstrip s = [] ↔ forallb isspace s = true.
Proof.
  induction s as [|c s IH]; [done|]. simpl.
  destruct (isspace c); [done|]. split; discriminate.
Qed.

Lemma lstrip_head (s : str) (c : N) (t : str) :
  lstrip s = c :: t → isspace c = false.
Proof.
  induction s as [|d s IH]; [done|]. simpl.
  destruct (isspace d) eqn:Hd; [done|]. by intros [= <- _].
Qed.

(** Trimming leaves nothing exactly when the string is empty or all
    whitespace. *)
Lemma strip_empty_iff (s : str) : strip s = [] ↔ forallb isspace s = true.
Proof.
  unfold strip, rstrip. rewrite <- lstrip_spaces. split.
  - intros Hs. apply (f_equal (@rev N)) in Hs. rewrite rev_involutive in Hs.
    apply lstrip_spaces in Hs.
    destruct (lstrip s) as [|c t] eqn:Hl; [done|].
    apply lstrip_head in Hl. rewrite forallb_forall in Hs.
    rewrite (Hs c) in Hl; [done|]. apply in_rev. rewrite rev_involutive. by left.
  - by intros ->.
Qed.

(** A row has no transcript exactly when its [fullText], if it is a string,
    is made of whitespace characters only. *)
Lemma has_text_blank (row : Row) :
  ¬ has_text row ↔
  ∀ text, row !! lit "fullText" = Some (Some text) →
          Forall (λ ch, isspace ch = true) text.
Proof.
  unfold has_text. split.
  - intros Hno text Htext. apply Forall_forall. intros ch Hch.
    destruct (decide (strip text = [])) as [Hs|Hs].
    + apply strip_empty_iff in Hs. rewrite forallb_forall in Hs.
      apply Hs. by apply list_elem_of_In.
    + destruct Hno. by exists text.
  - intros Hblank (text & Htext & Hs). apply Hs, strip_empty_iff.
    apply forallb_forall. intros ch Hch%list_elem_of_In.
    specialize (Hblank text Htext). rewrite Forall_forall in Hblank. auto.
Qed.

(** C4.  With a [kind] and a [source] column the category filter keeps
    the rows whose [kind] is [video] and whose [source] is [YouTube], letter
    for letter, whatever their address; when one of the two columns is
    missing it keeps the rows whose address is a string that is not empty,
    whatever their kind and source.  The rows kept stay in their order. *)
Theorem category_filter_spec (url_column : str) (rows : list Row) :
  (column_present rows (lit "kind") ∧ column_present rows (lit "source") →
   category_filter url_column rows = filter is_youtube rows) ∧
  (¬ (column_present rows (lit "kind") ∧ column_present rows (lit "source")) →
   category_filter url_column rows = filter (has_url url_column) rows).
Proof.
  unfold category_filter. split.
  - intros [Hk Hs]. apply has_column_present in Hk, Hs. rewrite Hk, Hs.
    apply filter_bool, is_youtube_video_spec.
  - intros Hno.
    destruct (has_column rows (lit "kind") && has_column rows (lit "source"))
      eqn:Hks.
    + destruct Hno. apply andb_true_iff in Hks as [Hk Hs].
      by split; apply has_column_present.
    + apply filter_bool. intros row. apply field_truthy_spec.
Qed.

(** * Properties of the dispatcher *)

Section Dispatcher.
Context `{os : OS}.

Lemma world_eta (w : world) : World _ (w_fs w) (w_calls w) (w_out w) = w.
Proof. by destruct w. Qed.

(** ** download_captions *)

Lemma download_captions_exists (video_url video_id output_dir language : str)
    (w : world) :
  path_exists (w_fs w) (expected_file output_dir video_id language) = true →
  download_captions video_url video_id output_dir language w
  = Ok AlreadyExists w.
Proof.
  intros Hex. unfold download_captions, bind, os_path_exists.
  by rewrite Hex.
Qed.

Lemma download_captions_raises (video_url video_id output_dir language : str)
    (w : world) :
  path_exists (w_fs w) (expected_file output_dir video_id language) = false →
  makedirs output_dir (w_fs w) = None →
  download_captions video_url video_id output_dir language w = Raise w.
Proof.
  intros Hex Hmk. unfold download_captions, bind, os_path_exists, os_makedirs.
  by rewrite Hex, Hmk.
Qed.

Lemma download_captions_runs (video_url video_id output_dir language : str)
    (w : world) (f1 f2 : fs) (r : run_result) :
  path_exists (w_fs w) (expected_file output_dir video_id language) = false →
  makedirs output_dir (w_fs w) = Some f1 →
  subprocess_run
    (ytdlp_cmd language (path_join output_dir video_id) video_url) 60 f1
  = (r, f2) →
  download_captions video_url video_id output_dir language w
  = Ok match r with
       | Completed returncode =>
           if (returncode =? 0)%Z
              && path_exists f2 (expected_file output_dir video_id language)
           then Downloaded else NoCaptionsAvailable
       | TimeoutExpired => (false, lit "Timeout")
       | Failed e => (false, lit "Error: " ++ e)
       end
       (World _ f2
          (w_calls w
           ++ [ytdlp_cmd language (path_join output_dir video_id) video_url])
          (w_out w)).
Proof.
  intros Hex Hmk Hrun.
  unfold download_captions, bind, os_path_exists, os_makedirs, run.
  rewrite Hex, Hmk. cbn [w_fs w_calls w_out]. rewrite Hrun.
  destruct r as [returncode| |e]; cbn [w_fs]; try done.
  by destruct ((returncode =? 0)%Z && _).
Qed.

(** ** One row *)

(** A row with a usable address: the loop reaches [download_captions]. *)
Lemma process_row_valid (captions_dir url_column : str)
    (video_count idx : nat) (row : Row) (c : counters) (url video_id : str)
    (w : world) :
  row_get row url_column = Some url →
  get_video_id (VStr url) = Some video_id →
  process_row captions_dir url_column video_count idx row c w
  = match download_captions url video_id captions_dir (lit "en") w with
    | Ok (success, message) w1 =>
        if success then
          if contains (lit "already exists") message
          then Ok (count_skip c) (printed w1 (PSkipped idx video_count video_id))
          else Ok (count_success c)
                 (printed w1 (PSuccess idx video_count video_id message))
        else Ok (count_error c)
               (printed w1 (PFailure idx video_count video_id message))
    | Raise w1 => Raise w1
    end.
Proof.
  intros Hurl Hid. unfold process_row. rewrite Hurl.
  destruct url as [|u url]; [done|]. rewrite Hid.
  destruct video_id as [|v video_id].
  { by apply get_video_id_Some in Hid as (_ & ? & _). }
  unfold bind.
  destruct (download_captions _ _ _ _ w) as [[success message] w1|w1];
    [|done].
  destruct success; [destruct (contains _ _)|]; done.
Qed.

Lemma process_row_no_url (captions_dir url_column : str)
    (video_count idx : nat) (row : Row) (c : counters) (w : world) :
  field_truthy (row_get row url_column) = false →
  process_row captions_dir url_column video_count idx row c w = Ok c w.
Proof.
  unfold process_row, field_truthy.
  by destruct (row_get row url_column) as [[|u url]|].
Qed.

Lemma process_row_invalid (captions_dir url_column : str)
    (video_count idx : nat) (row : Row) (c : counters) (url : str)
    (w : world) :
  row_get row url_column = Some url → url ≠ [] →
  get_video_id (VStr url) = None →
  process_row captions_dir url_column video_count idx row c w
  = Ok (count_error c) (printed w (PInvalid idx video_count)).
Proof.
  intros Hurl Hne Hid. unfold process_row. rewrite Hurl.
  destruct url as [|u url]; [done|]. by rewrite Hid.
Qed.


(** C3.  When the expected file of a row already exists, [download_captions]
    returns AlreadyExists and leaves the world as it was: no command is run,
    the file system is untouched.  The dispatcher counts the row as skipped,
    and neither as downloaded nor as an error. *)
Theorem existing_file_is_skipped (captions_dir url_column : str)
    (video_count idx : nat) (row : Row) (c : counters) (url video_id : str)
    (w : world) :
  row_get row url_column = Some url →
  get_video_id (VStr url) = Some video_id →
  path_exists (w_fs w) (expected_file captions_dir video_id (lit "en")) = true →
  download_captions url video_id captions_dir (lit "en") w = Ok AlreadyExists w ∧
  process_row captions_dir url_column video_count idx row c w
  = Ok (Counters (success_count c) (S (skip_count c)) (error_count c))
      (World _ (w_fs w) (w_calls w)
         (w_out w ++ [PSkipped idx video_count video_id])).
Proof.
  intros Hurl Hid Hex. split; [by apply download_captions_exists|].
  rewrite (process_row_valid _ _ _ _ _ _ _ _ _ Hurl Hid).
  by rewrite (download_captions_exists _ _ _ _ _ Hex).
Qed.

(** ** The loop *)

Lemma download_captions_effect (video_url video_id output_dir language : str)
    (w : world) :
  ∃ new,
    w_calls (final_world
               (download_captions video_url video_id output_dir language w))
    = w_calls w ++ new ∧
    (new = [] ∨
     new = [ytdlp_cmd language (path_join output_dir video_id) video_url]) ∧
    w_out (final_world
             (download_captions video_url video_id output_dir language w))
    = w_out w.
Proof.
  destruct (path_exists (w_fs w) (expected_file output_dir video_id language))
    eqn:Hex.
  { rewrite (download_captions_exists _ _ _ _ _ Hex). exists [].
    by rewrite app_nil_r; auto. }
  destruct (makedirs output_dir (w_fs w)) as [f1|] eqn:Hmk.
  - destruct (subprocess_run
      (ytdlp_cmd language (path_join output_dir video_id) video_url) 60 f1)
      as [r f2] eqn:Hrun.
    rewrite (download_captions_runs _ _ _ _ _ _ _ _ Hex Hmk Hrun).
    eexists. simpl. auto.
  - rewrite (download_captions_raises _ _ _ _ _ Hex Hmk). exists [].
    by rewrite app_nil_r; auto.
Qed.

(** One row runs at most its own command and moves the counters by at
    most one. *)
Lemma process_row_effect (captions_dir url_column : str)
    (video_count idx : nat) (row : Row) (c : counters) (w : world) :
  (∃ new,
     w_calls (final_world
                (process_row captions_dir url_column video_count idx row c w))
     = w_calls w ++ new ∧
     Forall (row_command captions_dir url_column row) new) ∧
  ∀ c' w', process_row captions_dir url_column video_count idx row c w
           = Ok c' w' →
           (total c ≤ total c' ≤ S (total c))%nat.
Proof.
  destruct (row_get row url_column) as [url|] eqn:Hurl.
  2: { rewrite process_row_no_url by by rewrite Hurl.
       split; [exists []; by rewrite app_nil_r|]. intros ? ? [= <- <-]. lia. }
  destruct url as [|u url].
  { rewrite process_row_no_url by by rewrite Hurl.
    split; [exists []; by rewrite app_nil_r|]. intros ? ? [= <- <-]. lia. }
  destruct (get_video_id (VStr (u :: url))) as [video_id|] eqn:Hid.
  2: { rewrite (process_row_invalid _ _ _ _ _ _ _ _ Hurl) by done.
       split; [exists []; by rewrite app_nil_r|].
       intros ? ? [= <- <-]. unfold total, count_error. simpl. lia. }
  rewrite (process_row_valid _ _ _ _ _ _ _ _ _ Hurl Hid).
  destruct (download_captions_effect (u :: url) video_id captions_dir
              (lit "en") w) as (new & Hcalls & Hnew & _).
  destruct (download_captions _ _ _ _ w) as [[success message] w1|w1].
  - split.
    + exists new. split.
      * by destruct success; [destruct (contains _ _)|].
      * destruct Hnew as [->| ->]; repeat constructor.
        by exists (u :: url), video_id.
    + intros c' w'.
      destruct success; [destruct (contains _ _)|]; intros [= <- <-];
        unfold total, count_skip, count_success, count_error; simpl; lia.
  - split; [|done]. exists new. split; [done|].
    destruct Hnew as [->| ->]; repeat constructor.
    by exists (u :: url), video_id.
Qed.

Lemma process_rows_effect (captions_dir url_column : str)
    (video_count idx : nat) (rows : list Row) (c : counters) (w : world) :
  (∃ new,
     w_calls (final_world
                (process_rows captions_dir url_column video_count idx rows c w))
     = w_calls w ++ new ∧
     Forall (λ cmd, ∃ row, row ∈ rows ∧
                           row_command captions_dir url_column row cmd) new) ∧
  ∀ c' w', process_rows captions_dir url_column video_count idx rows c w
           = Ok c' w' →
           (total c ≤ total c' ≤ total c + length rows)%nat.
Proof.
  revert idx c w. induction rows as [|row rows IH]; intros idx c w.
  { split; [exists []; by rewrite app_nil_r|].
    intros ? ? [= <- <-]. simpl. lia. }
  cbn [process_rows]. unfold bind.
  destruct (process_row_effect captions_dir url_column video_count idx row c w)
    as [(new1 & Hcalls1 & Hnew1) Hc1].
  destruct (process_row _ _ _ _ row c w) as [c1 w1|w1].
  - destruct (IH (S idx) c1 w1) as [(new2 & Hcalls2 & Hnew2) Hc2].
    split.
    + exists (new1 ++ new2). simpl in Hcalls1.
      rewrite Hcalls2, Hcalls1, app_assoc. split; [done|].
      apply Forall_app. split.
      * eapply Forall_impl; [exact Hnew1|]. intros cmd ?.
        exists row. split; [left|done].
      * eapply Forall_impl; [exact Hnew2|]. intros cmd (r & ? & ?).
        exists r. split; [by right|done].
    + intros c' w' Hrun. specialize (Hc1 _ _ eq_refl).
      specialize (Hc2 _ _ Hrun). simpl. lia.
  - split; [|done]. exists new1. split; [done|].
    eapply Forall_impl; [exact Hnew1|]. intros cmd ?.
    exists row. split; [left|done].
Qed.

(** ** dispatch *)

Lemma dispatch_no_column (rows : list Row) (captions_dir url_column : str)
    (w : world) :
  rows ≠ [] → has_column rows url_column = false →
  dispatch rows captions_dir url_column w
  = if has_surplus rows then Raise (printed w (PNoColumn url_column))
    else Ok false (printed w (PNoColumn url_column)).
Proof.
  intros Hrows Hcol. unfold dispatch. rewrite Hcol.
  destruct rows as [|row0 rows]; [done|]. cbn [length Nat.ltb Nat.leb negb andb].
  unfold bind, print, raise, ret, printed.
  by destruct (has_surplus (row0 :: rows)).
Qed.

Lemma dispatch_unfold (rows : list Row) (captions_dir url_column : str)
    (w : world) :
  rows = [] ∨ has_column rows url_column = true →
  dispatch rows captions_dir url_column w
  = let matched := category_filter url_column rows in
    let needing :=
      if has_column rows (lit "fullText")
      then List.filter needs_captions matched else matched in
    let w0 := report_filters w (has_column rows (lit "fullText"))
                (length matched - length needing) (length needing) in
    if (length needing =? 0)%nat then Ok true (printed w0 PNothingToDo)
    else match process_rows captions_dir url_column (length needing) 1
                 needing (Counters 0 0 0) w0 with
         | Ok c w1 =>
             Ok true
               (printed w1
                  (PSummary (length matched) (length needing)
                     (success_count c) (skip_count c) (error_count c)))
         | Raise w1 => Raise w1
         end.
Proof.
  intros Hcol. unfold dispatch.
  assert ((0 <? length rows)%nat && negb (has_column rows url_column) = false)
    as ->.
  { destruct Hcol as [->| ->]; [done | apply andb_false_r]. }
  unfold report_filters, report_lines, printed, bind, print, ret.
  destruct (has_column rows (lit "fullText")); cbn [andb];
    [destruct (0 <? _)%nat|];
    repeat (progress (cbn [w_fs w_calls w_out app]; rewrite <- ?app_assoc));
    destruct (length _ =? 0)%nat;
    repeat (progress (cbn [w_fs w_calls w_out app]; rewrite <- ?app_assoc));
    try done;
    match goal with
    | |- context [process_rows ?a ?b ?n ?i ?l ?c ?w0] =>
        destruct (process_rows a b n i l c w0)
    end;
    repeat (progress (cbn [w_fs w_calls w_out app]; rewrite <- ?app_assoc));
    done.
Qed.

(** C5.  With a [fullText] column, the rows the category filter kept
    and whose [fullText] is not empty once trimmed are left out of the loop:
    the loop runs over the other rows, those whose [fullText] is missing,
    empty or made of whitespace characters only; every command handed to the
    tool is the command of such a row; the counters of the summary count such
    rows only; and the number of rows left out is the number of matched rows
    less the number of rows that need captions.  (Without the address column
    the run has stopped before, with [False] or, when the first row has
    surplus fields, with the [TypeError] of the line that lists the columns,
    and no row is processed at all.) *)
Theorem fulltext_rows_are_skipped (rows : list Row)
    (captions_dir url_column : str) (w : world) :
  column_present rows (lit "fullText") →
  let matched := category_filter url_column rows in
  let needing := filter (λ row, ¬ has_text row) matched in
  let skipped := filter has_text matched in
  let w0 := report_filters w true (length skipped) (length needing) in
  let loop := process_rows captions_dir url_column (length needing) 1
                needing (Counters 0 0 0) w0 in
  (length matched - length needing = length skipped)%nat ∧
  dispatch rows captions_dir url_column w
  = (if negb (has_column rows url_column)
     then if has_surplus rows
          then Raise (printed w (PNoColumn url_column))
          else Ok false (printed w (PNoColumn url_column))
     else if decide (needing = []) then Ok true (printed w0 PNothingToDo)
     else match loop with
          | Ok c w1 =>
              Ok true
                (printed w1
                   (PSummary (length matched) (length needing)
                      (success_count c) (skip_count c) (error_count c)))
          | Raise w1 => Raise w1
          end) ∧
  (∃ new,
     w_calls (final_world (dispatch rows captions_dir url_column w))
     = w_calls w ++ new ∧
     Forall (λ cmd, ∃ row, row ∈ matched ∧ ¬ has_text row ∧
                           row_command captions_dir url_column row cmd) new) ∧
  (∀ c w1, loop = Ok c w1 →
           (success_count c + skip_count c + error_count c
            ≤ length needing)%nat) ∧
  (∀ row, row ∈ needing ↔
          row ∈ matched ∧
          ∀ text, row !! lit "fullText" = Some (Some text) →
                  Forall (λ ch, isspace ch = true) text).
Proof.
  intros Hft matched needing skipped w0 loop.
  apply has_column_present in Hft.
  assert (rows ≠ []) as Hrows by (by intros ->).
  assert (List.filter needs_captions matched = needing) as Hneeding.
  { apply filter_bool, needs_captions_spec. }
  assert (length matched - length needing = length skipped)%nat as Hlen.
  { pose proof (filter_split_length has_text matched) as Hsplit.
    fold needing skipped in Hsplit. lia. }
  assert (dispatch rows captions_dir url_column w
          = if negb (has_column rows url_column)
            then if has_surplus rows
                 then Raise (printed w (PNoColumn url_column))
                 else Ok false (printed w (PNoColumn url_column))
            else if decide (needing = [])
            then Ok true (printed w0 PNothingToDo)
            else match loop with
                 | Ok c w1 =>
                     Ok true
                       (printed w1
                          (PSummary (length matched) (length needing)
                             (success_count c) (skip_count c) (error_count c)))
                 | Raise w1 => Raise w1
                 end) as Hdispatch.
  { destruct (has_column rows url_column) eqn:Hcol; cbn [negb].
    2: { by apply dispatch_no_column. }
    rewrite dispatch_unfold by by right. cbv zeta.
    rewrite Hft. fold matched. rewrite Hneeding, Hlen. fold w0.
    destruct (decide (needing = [])) as [Hn|Hn].
    - by rewrite Hn.
    - by destruct needing. }
  destruct (process_rows_effect captions_dir url_column (length needing) 1
              needing (Counters 0 0 0) w0) as [(new & Hcalls & Hnew) Hcount].
  fold loop in Hcalls, Hcount.
  split; [done|]. split; [done|]. split; [|split].
  - rewrite Hdispatch.
    destruct (has_column rows url_column); cbn [negb];
      [destruct (decide (needing = [])) as [Hn|Hn]|].
    + exists []. by rewrite app_nil_r.
    + exists new. split.
      * by destruct loop.
      * eapply Forall_impl; [exact Hnew|]. intros cmd (row & Hrow & Hcmd).
        exists row. by apply list_elem_of_filter in Hrow as [? ?].
    + exists []. rewrite app_nil_r. by destruct (has_surplus rows).
  - intros c w1 Hloop. specialize (Hcount _ _ Hloop).
    unfold total in Hcount. simpl in Hcount. lia.
  - intros row. unfold needing. rewrite list_elem_of_filter.
    rewrite (has_text_blank row). tauto.
Qed.
End Dispatcher.

(** C8.  A row whose address is missing or empty passes the category
    filter on [kind] and [source] and is then skipped by the loop without a
    trace: the counters and the world stay as they are.  The three counters
    of the summary then add up to less than the number of videos it reports
    as needing captions. *)
Theorem row_without_url_is_not_counted :
  (∀ (os : OS) captions_dir url_column video_count idx row c w,
     ¬ has_url url_column row →
     process_row captions_dir url_column video_count idx row c w = Ok c w) ∧
  category_filter (lit "url") [row_with_url; row_empty_url; row_short]
  = [row_with_url; row_empty_url; row_short] ∧
  ∃ w', @dispatch (mem_os stub_tool) [row_with_url; row_empty_url; row_short]
          (lit "captions") (lit "url") (mem_world stub_tool (MemFs [] []))
        = Ok true w' ∧
        w_out w' = [PFound 3;
                    PSuccess 1 3 (lit "abc123") (lit "Downloaded");
                    PSummary 3 3 1 0 0].
Proof.
  split; [|split].
  - intros os captions_dir url_column video_count idx row c w Hno.
    apply process_row_no_url.
    destruct (field_truthy (row_get row url_column)) eqn:Hf; [|done].
    by apply field_truthy_spec in Hf.
  - by vm_compute.
  - eexists. split; by vm_compute.
Qed.

(** * Running the dispatcher twice *)

Lemma path_join_app (a b s : str) :
  starts_with_slash s = false → path_join a b ++ s = path_join a (b ++ s).
Proof.
  intros Hs. unfold path_join. destruct b as [|c b]; simpl.
  - rewrite Hs, app_nil_r. destruct (bool_decide (a = []) || ends_with_slash a);
      [done|]. by rewrite <- app_assoc.
  - destruct (c =? slash); [done|].
    destruct (bool_decide (a = []) || ends_with_slash a);
      by rewrite <- app_assoc.
Qed.

Lemma expected_file_written (output_dir video_id language : str) :
  path_join output_dir video_id ++ lit "." ++ language ++ lit ".srt"
  = expected_file output_dir video_id language.
Proof. unfold expected_file. by rewrite path_join_app. Qed.

Lemma bump_zero (c : counters) : bump c 0 0 0 = c.
Proof. destruct c. unfold bump. simpl. f_equal; lia. Qed.

Section Rerun.
Context `{os : OS}.
Hypothesis tool_ok : tool_always_succeeds os.
Hypothesis makedirs_ok : makedirs_keeps_files os.

Lemma preserved_refl (f : fs) : preserved f f.
Proof. by intros p. Qed.

Lemma preserved_trans (f1 f2 f3 : fs) :
  preserved f1 f2 → preserved f2 f3 → preserved f1 f3.
Proof. intros H12 H23 p Hp. by apply H23, H12. Qed.

(** What one row of the first run leaves behind, and what the same row
    does in any later world that still has the files. *)
Lemma process_row_rerun (captions_dir url_column : str)
    (video_count idx : nat) (row : Row) (c c1 : counters) (w w1 : world) :
  process_row captions_dir url_column video_count idx row c w = Ok c1 w1 →
  preserved (w_fs w) (w_fs w1) ∧
  ∃ ds dk de ls,
    c1 = bump c ds dk de ∧ w_out w1 = w_out w ++ ls ∧
    ∀ c' w', preserved (w_fs w1) (w_fs w') →
      process_row captions_dir url_column video_count idx row c' w'
      = Ok (bump c' 0 (ds + dk) de)
          (World _ (w_fs w') (w_calls w')
             (w_out w' ++ (second_run_line <$> ls))).
Proof.
  destruct (row_get row url_column) as [[|u url]|] eqn:Hurl.
  1, 3: rewrite process_row_no_url by (by rewrite Hurl);
    intros [= <- <-]; split; [apply preserved_refl|];
    exists 0%nat, 0%nat, 0%nat, []; rewrite bump_zero, app_nil_r;
    split; [done|]; split; [done|]; intros c' w' _;
    rewrite process_row_no_url by (by rewrite Hurl);
    by rewrite bump_zero, app_nil_r, world_eta.
  destruct (get_video_id (VStr (u :: url))) as [video_id|] eqn:Hid.
  2: { rewrite (process_row_invalid _ _ _ _ _ _ _ _ Hurl) by done.
       intros [= <- <-]. split; [apply preserved_refl|].
       exists 0%nat, 0%nat, 1%nat, [PInvalid idx video_count].
       split; [destruct c; unfold bump, count_error; simpl; f_equal; lia|].
       split; [done|]. intros c' w' _.
       rewrite (process_row_invalid _ _ _ _ _ _ _ _ Hurl) by done.
       f_equal. destruct c'; unfold bump, count_error; simpl; f_equal; lia. }
  rewrite (process_row_valid _ _ _ _ _ _ _ _ _ Hurl Hid).
  destruct (path_exists (w_fs w)
              (expected_file captions_dir video_id (lit "en"))) eqn:Hex.
  - rewrite (download_captions_exists _ _ _ _ _ Hex).
    cbn. intros [= <- <-]. split; [apply preserved_refl|].
    exists 0%nat, 1%nat, 0%nat, [PSkipped idx video_count video_id].
    split; [destruct c; unfold bump, count_skip; simpl; f_equal; lia|].
    split; [done|]. intros c' w' Hkeep.
    rewrite (process_row_valid _ _ _ _ _ _ _ _ _ Hurl Hid).
    rewrite (download_captions_exists _ _ _ _ w') by by apply Hkeep.
    cbn. f_equal. destruct c'; unfold bump, count_skip; simpl; f_equal; lia.
  - destruct (makedirs captions_dir (w_fs w)) as [f1|] eqn:Hmk.
    2: { by rewrite (download_captions_raises _ _ _ _ _ Hex Hmk). }
    destruct (tool_ok (lit "en") (path_join captions_dir video_id) (u :: url)
                60%Z f1) as (f2 & Hrun & Hwritten & Hkeep12).
    rewrite expected_file_written in Hwritten.
    rewrite (download_captions_runs _ _ _ _ _ _ _ _ Hex Hmk Hrun).
    rewrite Hwritten. cbn. intros [= <- <-].
    split.
    { cbn. eapply preserved_trans; [by eapply makedirs_ok | done]. }
    exists 1%nat, 0%nat, 0%nat,
      [PSuccess idx video_count video_id (lit "Downloaded")].
    split; [destruct c; unfold bump, count_success; simpl; f_equal; lia|].
    split; [done|]. intros c' w' Hkeep.
    rewrite (process_row_valid _ _ _ _ _ _ _ _ _ Hurl Hid).
    rewrite (download_captions_exists _ _ _ _ w') by by apply Hkeep.
    cbn. f_equal. destruct c'; unfold bump, count_skip; simpl; f_equal; lia.
Qed.

Lemma process_rows_rerun (captions_dir url_column : str)
    (video_count idx : nat) (rows : list Row) (c c1 : counters) (w w1 : world) :
  process_rows captions_dir url_column video_count idx rows c w = Ok c1 w1 →
  preserved (w_fs w) (w_fs w1) ∧
  ∃ ds dk de ls,
    c1 = bump c ds dk de ∧ w_out w1 = w_out w ++ ls ∧
    ∀ c' w', preserved (w_fs w1) (w_fs w') →
      process_rows captions_dir url_column video_count idx rows c' w'
      = Ok (bump c' 0 (ds + dk) de)
          (World _ (w_fs w') (w_calls w')
             (w_out w' ++ (second_run_line <$> ls))).
Proof.
  revert idx c w. induction rows as [|row rows IH]; intros idx c w.
  { intros [= <- <-]. split; [apply preserved_refl|].
    exists 0%nat, 0%nat, 0%nat, []. rewrite bump_zero, app_nil_r.
    split; [done|]. split; [done|]. intros c' w' _. cbn.
    by rewrite bump_zero, app_nil_r, world_eta. }
  cbn [process_rows]. unfold bind.
  destruct (process_row captions_dir url_column video_count idx row c w)
    as [cm wm|wm] eqn:Hrow; [|done].
  intros Hrest.
  apply process_row_rerun in Hrow
    as (Hkeep1 & ds1 & dk1 & de1 & ls1 & -> & Hout1 & Hagain1).
  apply IH in Hrest
    as (Hkeep2 & ds2 & dk2 & de2 & ls2 & -> & Hout2 & Hagain2).
  split; [by eapply preserved_trans|].
  exists (ds1 + ds2)%nat, (dk1 + dk2)%nat, (de1 + de2)%nat, (ls1 ++ ls2).
  split; [unfold bump; simpl; f_equal; lia|].
  split; [by rewrite Hout2, Hout1, app_assoc|].
  intros c' w' Hkeep.
  rewrite Hagain1 by by eapply preserved_trans.
  rewrite Hagain2 by done. cbn [w_fs w_calls w_out].
  rewrite fmap_app, app_assoc. f_equal.
  unfold bump; simpl; f_equal; lia.
Qed.

(** C7.  With a tool that always succeeds, a second run of the
    dispatcher over the same rows and the same directory, started where
    the first one ended, downloads nothing: it runs no command and leaves
    the file system alone, every row the first run downloaded is now
    skipped as already there, and its summary counts no download. *)
Theorem second_run_downloads_nothing (rows : list Row)
    (captions_dir url_column : str) (w w1 : world) (b : bool) :
  dispatch rows captions_dir url_column w = Ok b w1 →
  ∃ ls w2,
    w_out w1 = w_out w ++ ls ∧
    dispatch rows captions_dir url_column w1 = Ok b w2 ∧
    w_fs w2 = w_fs w1 ∧ w_calls w2 = w_calls w1 ∧
    w_out w2 = w_out w1 ++ (second_run_line <$> ls) ∧
    (∀ idx n video_id message,
       PSuccess idx n video_id message ∈ ls →
       PSkipped idx n video_id ∈ second_run_line <$> ls) ∧
    (∀ idx n video_id message,
       PSuccess idx n video_id message ∉ second_run_line <$> ls) ∧
    (∀ t n success skip error,
       PSummary t n success skip error ∈ second_run_line <$> ls →
       success = 0%nat).
Proof.
  intros Hrun.
  assert (∃ ls w2,
    w_out w1 = w_out w ++ ls ∧
    dispatch rows captions_dir url_column w1 = Ok b w2 ∧
    w_fs w2 = w_fs w1 ∧ w_calls w2 = w_calls w1 ∧
    w_out w2 = w_out w1 ++ (second_run_line <$> ls))
    as (ls & w2 & Hout & Hagain & Hfs & Hcalls & Hout2).
  { assert ((rows ≠ [] ∧ has_column rows url_column = false) ∨
            (rows = [] ∨ has_column rows url_column = true)) as [[Hne Hcol]|Hcol].
    { destruct rows as [|row0 rows']; [right; by left|].
      destruct (has_column (row0 :: rows') url_column);
        [right; by right | by left]. }
    { rewrite dispatch_no_column in Hrun by done.
      destruct (has_surplus rows) eqn:Hsur; [done|].
      injection Hrun as <- <-.
      exists [PNoColumn url_column]. eexists.
      rewrite dispatch_no_column by done. rewrite Hsur. by cbn. }
    rewrite dispatch_unfold in Hrun by done.
    rewrite dispatch_unfold by done. cbv zeta in *.
    set (matched := category_filter url_column rows) in *.
    set (needing := if has_column rows (lit "fullText")
                    then List.filter needs_captions matched else matched) in *.
    set (skipped := (length matched - length needing)%nat) in *.
    set (ft := has_column rows (lit "fullText")) in *.
    set (report := report_lines ft skipped (length needing)) in *.
    assert (second_run_line <$> report = report) as Hreport.
    { unfold report, report_lines. by destruct (ft && (0 <? skipped)%nat). }
    destruct (length needing =? 0)%nat.
    - injection Hrun as <- <-.
      exists (report ++ [PNothingToDo]). eexists.
      split; [cbn [w_out printed report_filters]; by rewrite <- !app_assoc|].
      split; [done|].
      cbn [w_fs w_calls w_out printed report_filters]. repeat split.
      rewrite fmap_app, Hreport. by rewrite <- !app_assoc.
    - destruct (process_rows captions_dir url_column (length needing) 1
                  needing (Counters 0 0 0)
                  (report_filters w ft skipped (length needing)))
        as [c wl|wl] eqn:Hloop; [|done].
      injection Hrun as <- <-.
      apply process_rows_rerun in Hloop
        as (_ & ds & dk & de & ls & -> & Houtl & Hagain).
      exists (report ++ ls
              ++ [PSummary (length matched) (length needing) ds dk de]).
      eexists.
      split.
      { cbn [w_out printed report_filters] in *. rewrite Houtl.
        by rewrite <- !app_assoc. }
      rewrite Hagain by by intros p.
      split; [done|].
      cbn [w_fs w_calls w_out printed report_filters bump
           success_count skip_count error_count] in *.
      repeat split.
      rewrite Houtl, !fmap_app, Hreport. cbn [fmap list_fmap second_run_line].
      by rewrite <- !app_assoc. }
  exists ls, w2. repeat split; try done.
  - intros idx n video_id message Hin.
    by apply (list_elem_of_fmap_2 second_run_line) in Hin.
  - intros idx n video_id message (l & Hl & _)%list_elem_of_fmap.
    by destruct l.
  - intros t n success skip error (l & Hl & _)%list_elem_of_fmap.
    destruct l; try done. by injection Hl as _ _ -> _ _.
Qed.
End Rerun.

(** * The exit status of the script *)

Section Main.
Context `{os : OS}.

Lemma main_unfold (getenv : str → option str) (argv : list str) (w : world) :
  main getenv argv w
  = if path_exists (w_fs w) (csv_file_arg getenv argv) then
      match process_csv (csv_file_arg getenv argv)
              (captions_dir_arg getenv argv) (lit "url") w with
      | Ok true w1 => Ok 0%Z (printed w1 PComplete)
      | Ok false w1 => Ok 1%Z (printed w1 PProcessingFailed)
      | Raise w1 => Raise w1
      end
    else Ok 1%Z (printed w (PFileNotFound (csv_file_arg getenv argv))).
Proof.
  unfold main, csv_file_arg, captions_dir_arg, bind, os_path_exists.
  destruct (path_exists (w_fs w) _); [|done]. cbn [negb].
  destruct (process_csv _ _ _ w) as [[|] w1|w1]; done.
Qed.

Lemma process_csv_unfold (csv_file captions_dir url_column : str) (w : world) :
  process_csv csv_file captions_dir url_column w
  = let probed := subprocess_run probe_cmd 5 (w_fs w) in
    let w1 := World _ probed.2 (w_calls w ++ [probe_cmd]) (w_out w) in
    match probed.1 with
    | Completed 0 =>
        match read_csv csv_file probed.2 with
        | Some rows =>
            dispatch rows captions_dir url_column
              (printed w1 (PLoaded (length rows)))
        | None => Ok false (printed w1 PReadError)
        end
    | _ => Ok false (printed w1 PNoTool)
    end.
Proof.
  unfold process_csv, bind, run, open_csv. fold probe_cmd.
  destruct (subprocess_run probe_cmd 5 (w_fs w)) as [r f1]. cbn [fst snd].
  destruct r as [[|p|p]| |e]; try done.
  cbn [w_fs]. by destruct (read_csv csv_file f1).
Qed.

(** With directories that can always be created, no row raises. *)
Lemma process_rows_returns (captions_dir url_column : str)
    (video_count idx : nat) (rows : list Row) (c : counters) (w : world) :
  makedirs_total os →
  ∃ c' w', process_rows captions_dir url_column video_count idx rows c w
           = Ok c' w'.
Proof.
  intros Hmk. revert idx c w.
  induction rows as [|row rows IH]; intros idx c w; [by eexists _, _|].
  cbn [process_rows]. unfold bind.
  assert (∃ c1 w1, process_row captions_dir url_column video_count idx row c w
                   = Ok c1 w1) as (c1 & w1 & ->); [|apply IH].
  destruct (row_get row url_column) as [[|u url]|] eqn:Hurl.
  1, 3: rewrite process_row_no_url by (by rewrite Hurl); by eexists _, _.
  destruct (get_video_id (VStr (u :: url))) as [video_id|] eqn:Hid.
  2: { rewrite (process_row_invalid _ _ _ _ _ _ _ _ Hurl) by done.
       by eexists _, _. }
  rewrite (process_row_valid _ _ _ _ _ _ _ _ _ Hurl Hid).
  destruct (path_exists (w_fs w)
              (expected_file captions_dir video_id (lit "en"))) eqn:Hex.
  { rewrite (download_captions_exists _ _ _ _ _ Hex). by eexists _, _. }
  destruct (Hmk captions_dir (w_fs w)) as [f1 Hf1].
  destruct (subprocess_run
              (ytdlp_cmd (lit "en") (path_join captions_dir video_id) (u :: url))
              60 f1) as [r f2] eqn:Hrun.
  rewrite (download_captions_runs _ _ _ _ _ _ _ _ Hex Hf1 Hrun).
  destruct r as [returncode| |e]; [destruct (_ && _)| |]; by eexists _, _.
Qed.

Lemma dispatch_returns (rows : list Row) (captions_dir url_column : str)
    (w : world) :
  makedirs_total os →
  rows = [] ∨ has_column rows url_column = true →
  ∃ w', dispatch rows captions_dir url_column w = Ok true w'.
Proof.
  intros Hmk Hcol.
  rewrite dispatch_unfold by done. cbv zeta.
  destruct (length _ =? 0)%nat; [by eexists|].
  match goal with
  | |- context [process_rows ?a ?b ?n ?i ?l ?c ?w0] =>
      destruct (process_rows_returns a b n i l c w0 Hmk) as (c' & w' & ->)
  end.
  by eexists.
Qed.

(** A fail-fast condition ends the run with 1 before any row: at most the
    version probe has run. *)
Lemma fail_fast_exits_1 (getenv : str → option str) (argv : list str)
    (w : world) :
  fail_fast (csv_file_arg getenv argv) (lit "url") (w_fs w) →
  exit_status (main getenv argv w) = 1%Z ∧
  (w_calls (final_world (main getenv argv w)) = w_calls w ∨
   w_calls (final_world (main getenv argv w)) = w_calls w ++ [probe_cmd]) ∧
  Forall (λ l, ∀ n, l ≠ PFound n)
    (drop (length (w_out w)) (w_out (final_world (main getenv argv w)))).
Proof.
  rewrite main_unfold, process_csv_unfold. cbv zeta. unfold fail_fast.
  destruct (path_exists (w_fs w) (csv_file_arg getenv argv)).
  2: { intros _. split; [done|]. split; [by left|].
       cbn. rewrite drop_app_length. by repeat constructor. }
  destruct (subprocess_run probe_cmd 5 (w_fs w)) as [r f1]. cbn [fst snd].
  assert (r = Completed 0 ∨ r ≠ Completed 0) as [->|Hr].
  { destruct r as [[|p|p]| |e]; auto; by right. }
  2: { intros _.
       assert (match r with
               | Completed 0 =>
                   match read_csv (csv_file_arg getenv argv) f1 with
                   | Some rows =>
                       dispatch rows (captions_dir_arg getenv argv) (lit "url")
                         (printed (World _ f1 (w_calls w ++ [probe_cmd]) (w_out w))
                            (PLoaded (length rows)))
                   | None =>
                       Ok false
                         (printed (World _ f1 (w_calls w ++ [probe_cmd]) (w_out w))
                            PReadError)
                   end
               | _ => Ok false
                        (printed (World _ f1 (w_calls w ++ [probe_cmd]) (w_out w))
                           PNoTool)
               end
               = Ok false
                   (printed (World _ f1 (w_calls w ++ [probe_cmd]) (w_out w))
                      PNoTool)) as ->.
       { by destruct r as [[|p|p]| |e]. }
       split; [done|]. split; [by right|].
       cbn. rewrite <- app_assoc, drop_app_length. by repeat constructor. }
  destruct (read_csv (csv_file_arg getenv argv) f1) as [rows|].
  2: { intros _. split; [done|]. split; [by right|].
       cbn. rewrite <- app_assoc, drop_app_length. by repeat constructor. }
  intros [|[|[|(rows' & [= <-] & Hne & Hcol)]]]; try done.
  rewrite dispatch_no_column; [|done|].
  2: { destruct (has_column rows (lit "url")) eqn:Hc; [|done].
       by apply has_column_present in Hc. }
  destruct (has_surplus rows).
  - split; [done|]. split; [by right|].
    cbn. rewrite <- !app_assoc, drop_app_length. by repeat constructor.
  - split; [done|]. split; [by right|].
    cbn. rewrite <- !app_assoc, drop_app_length. by repeat constructor.
Qed.

(** With directories that can always be created, the script exits with 1
    exactly under a fail-fast condition, and with 0 otherwise. *)
Lemma exit_status_spec (getenv : str → option str) (argv : list str)
    (w : world) :
  makedirs_total os →
  (fail_fast (csv_file_arg getenv argv) (lit "url") (w_fs w) →
   exit_status (main getenv argv w) = 1%Z) ∧
  (¬ fail_fast (csv_file_arg getenv argv) (lit "url") (w_fs w) →
   exit_status (main getenv argv w) = 0%Z).
Proof.
  intros Hmk. split.
  { by intros (Hexit & _)%(fail_fast_exits_1 getenv argv w). }
  rewrite main_unfold, process_csv_unfold. cbv zeta.
  unfold fail_fast.
  destruct (path_exists (w_fs w) (csv_file_arg getenv argv));
    [|intros []; by left].
  destruct (subprocess_run probe_cmd 5 (w_fs w)) as [r f1]. cbn [fst snd].
  assert (r = Completed 0 ∨ r ≠ Completed 0) as [->|Hr].
  { destruct r as [[|p|p]| |e]; auto; by right. }
  2: { intros []; auto. }
  destruct (read_csv (csv_file_arg getenv argv) f1) as [rows|];
    [|intros []; auto].
  intros Hno.
  assert (rows = [] ∨ has_column rows (lit "url") = true) as Hcol.
  { destruct rows as [|row0 rows']; [by left|].
    destruct (has_column (row0 :: rows') (lit "url")) eqn:Hc; [by right|].
    destruct Hno. right; right; right. exists (row0 :: rows').
    split; [done|]. split; [done|].
    intros Hp%has_column_present. congruence. }
  match goal with
  | |- context [dispatch ?rs ?d ?c ?w0] =>
      destruct (dispatch_returns rs d c w0 Hmk Hcol) as (w' & ->)
  end.
  done.
Qed.
End Main.

(** C6.  The script given [brain.csv] and, for the captions, a directory
    below that regular file: the CSV file is there, the tool answers the
    probe, the rows load and have the address column, so no fail-fast
    condition holds; the loop starts, [os.makedirs] raises on the first row,
    nothing catches the exception, and the interpreter exits with 1. *)
Theorem makedirs_failure_aborts_run :
  let os := mem_os stub_tool in
  let argv := [lit "downloadYoutubeSrts.py"; lit "brain.csv";
               lit "brain.csv/captions"] in
  let w := mem_world stub_tool brain_fs in
  ¬ @fail_fast os (csv_file_arg (λ _, None) argv) (lit "url") (w_fs w) ∧
  @main os (λ _, None) argv w
  = Raise (@World os brain_fs [probe_cmd] [PLoaded 1; PFound 1]) ∧
  exit_status (@main os (λ _, None) argv w) = 1%Z.
Proof.
  cbv zeta. split; [|by vm_compute].
  intros [H|[H|[H|(rows & H & _ & Hcol)]]];
    [vm_compute in H; done..|].
  change (Some [row_with_url] = Some rows) in H. injection H as <-.
  apply Hcol. exists row_with_url. split; [done|].
  vm_compute. by eexists.
Qed.

(** * More on the extractor *)

Lemma shape_search_None_inv (shs : list (list str)) (url : str) :
  shape_search shs url = None → Forall (λ sh, ¬ shape_matches sh url) shs.
Proof.
  induction shs as [|sh shs IH]; [constructor|].
  cbn [shape_search]. destruct (id_search sh url) eqn:Hs; [discriminate|].
  intros Hrest. constructor; [by apply id_search_None | by apply IH].
Qed.

Lemma shape_search_Some_first (shs : list (list str)) (url id : str) :
  shape_search shs url = Some id →
  ∃ n sh, shs !! n = Some sh ∧
          (∀ m sh', (m < n)%nat → shs !! m = Some sh' → ¬ shape_matches sh' url) ∧
          first_occurrence sh url id.
Proof.
  induction shs as [|sh shs IH]; [discriminate|].
  cbn [shape_search]. destruct (id_search sh url) as [id'|] eqn:Hs.
  - intros [= <-]. exists 0%nat, sh. split; [done|].
    split; [intros; lia | by apply id_search_Some].
  - intros (n & sh1 & Hn & Hbefore & Hfirst)%IH.
    exists (S n), sh1. split; [done|]. split; [|done].
    intros [|m] sh' Hm Hsh'.
    + injection Hsh' as <-. by apply id_search_None.
    + apply (Hbefore m); [lia | done].
Qed.

(** X7.  What [get_video_id] returns tells what the input was: none for a
    string means that no shape matches it; an identifier means that the
    input is a string, that the identifier is the one of the first occurrence
    of a shape in it, and that no earlier shape matches. *)
Theorem get_video_id_inversion :
  (∀ url, get_video_id (VStr url) = None →
          Forall (λ sh, ¬ shape_matches sh url) shapes) ∧
  (∀ v id, get_video_id v = Some id →
     ∃ url n sh,
       v = VStr url ∧ shapes !! n = Some sh ∧
       (∀ m sh', (m < n)%nat → shapes !! m = Some sh' →
                 ¬ shape_matches sh' url) ∧
       first_occurrence sh url id).
Proof.
  split.
  - intros url Hnone. rewrite get_video_id_str in Hnone.
    by apply shape_search_None_inv.
  - intros v id Hv.
    pose proof (get_video_id_Some _ _ Hv) as ((url & -> & _) & _).
    rewrite get_video_id_str in Hv.
    apply shape_search_Some_first in Hv as (n & sh & ? & ? & ?).
    by exists url, n, sh.
Qed.

Lemma first_pattern_starts_with_y (pfx : str) :
  pfx ∈ [lit "youtube.com/watch?v="; lit "youtu.be/"] →
  ∃ p, pfx = letter_y :: p.
Proof.
  rewrite !elem_of_cons, elem_of_nil. intros [->|[->|[]]]; by eexists.
Qed.

(** X6.  An address made of a watch-page or short-link prefix and an
    identifier gives the identifier back: whatever stands before the prefix,
    as long as it holds no letter y, and whatever follows the identifier after
    an ampersand or a whitespace character. *)
Theorem get_video_id_of_link (pre pfx id rest : str) :
  pfx ∈ [lit "youtube.com/watch?v="; lit "youtu.be/"] →
  Forall (λ c, c ≠ letter_y) pre →
  id ≠ [] →
  Forall (λ c, delim c = false) id →
  (rest = [] ∨ ∃ c r, rest = c :: r ∧ delim c = true) →
  get_video_id (VStr (pre ++ pfx ++ id ++ rest)) = Some id.
Proof.
  intros Hpfx Hpre Hne Hid Hrest. rewrite get_video_id_str.
  apply (shape_search_first [] _ [lit "youtube.com/watch?v="; lit "youtu.be/"]);
    [constructor | apply shapes_exclusive; by left |].
  exists pre. split.
  - exists pfx, (id ++ rest). split; [done|]. split; [done|].
    split; [done|]. split; [done|]. by exists rest.
  - intros pre' id' (pfx' & tail' & Hpfx' & Hurl & _).
    destruct (decide (length pre ≤ length pre')%nat) as [|Hlt]; [done|].
    exfalso.
    destruct (first_pattern_starts_with_y _ Hpfx') as (p & ->).
    assert ((pre ++ pfx ++ id ++ rest) !! length pre' = Some letter_y) as Hy.
    { rewrite Hurl. by apply list_lookup_middle. }
    rewrite lookup_app_l in Hy by lia.
    by apply (Forall_lookup_1 _ _ _ _ Hpre) in Hy.
Qed.

(** * More on the dispatcher *)

Lemma List_filter_elem_of {A} (f : A → bool) (l : list A) (x : A) :
  x ∈ List.filter f l → x ∈ l.
Proof. rewrite !list_elem_of_In, filter_In. tauto. Qed.

Lemma List_filter_length {A} (f : A → bool) (l : list A) :
  (length (List.filter f l) ≤ length l)%nat.
Proof.
  induction l as [|x l IH]; [done|]. simpl. destruct (f x); simpl; lia.
Qed.

Lemma url_positions_length (url_column : str) (idx : nat) (rows : list Row) :
  length (url_positions url_column idx rows)
  = length (filter (has_url url_column) rows).
Proof.
  revert idx. induction rows as [|row rows IH]; intros idx; [done|].
  cbn [url_positions]. rewrite filter_cons.
  destruct (decide (has_url url_column row)); simpl; by rewrite IH.
Qed.

Lemma category_filter_sub (url_column : str) (rows : list Row) (row : Row) :
  row ∈ category_filter url_column rows → row ∈ rows.
Proof.
  unfold category_filter. destruct (_ && _); apply List_filter_elem_of.
Qed.

Lemma category_filter_length (url_column : str) (rows : list Row) :
  (length (category_filter url_column rows) ≤ length rows)%nat.
Proof.
  unfold category_filter. destruct (_ && _); apply List_filter_length.
Qed.



Section MoreDispatcher.
Context `{os : OS}.

(** ** One row *)

Lemma has_url_row_get (url_column : str) (row : Row) :
  has_url url_column row ↔ ∃ u url, row_get row url_column = Some (u :: url).
Proof.
  rewrite <- field_truthy_spec. unfold field_truthy.
  destruct (row_get row url_column) as [[|u url]|].
  - split; [done | by intros (? & ? & ?)].
  - split; [by eexists _, _ | done].
  - split; [done | by intros (? & ? & ?)].
Qed.

Lemma process_row_lines (captions_dir url_column : str)
    (video_count idx : nat) (row : Row) (c c' : counters) (w w' : world) :
  process_row captions_dir url_column video_count idx row c w = Ok c' w' →
  ∃ ls, w_out w' = w_out w ++ ls ∧
        total c' = (total c + length ls)%nat ∧
        line_index <$> ls
        = if decide (has_url url_column row) then [Some (idx, video_count)]
          else [].
Proof.
  destruct (decide (has_url url_column row)) as [Hu|Hu].
  - apply has_url_row_get in Hu as (u & url & Hurl).
    destruct (get_video_id (VStr (u :: url))) as [video_id|] eqn:Hid.
    + rewrite (process_row_valid _ _ _ _ _ _ _ _ _ Hurl Hid).
      destruct (download_captions_effect (u :: url) video_id captions_dir
                  (lit "en") w) as (new & _ & _ & Hout).
      destruct (download_captions _ _ _ _ w) as [[success message] w1|w1];
        [|done].
      cbn [final_world] in Hout.
      destruct success; [destruct (contains _ _)|]; intros [= <- <-];
        eexists [_]; cbn [printed w_out]; rewrite Hout;
        (split; [done|]); (split; [|done]);
        unfold total, count_skip, count_success, count_error; simpl; lia.
    + rewrite (process_row_invalid _ _ _ _ _ _ _ _ Hurl) by done.
      intros [= <- <-]. exists [PInvalid idx video_count].
      split; [done|]. split; [|done].
      unfold total, count_error; simpl; lia.
  - rewrite process_row_no_url.
    + intros [= <- <-]. exists []. rewrite app_nil_r.
      split; [done|]. split; [simpl; lia | done].
    + destruct (field_truthy (row_get row url_column)) eqn:Hf; [|done].
      by apply field_truthy_spec in Hf.
Qed.

Lemma process_row_raise (captions_dir url_column : str)
    (video_count idx : nat) (row : Row) (c : counters) (w w' : world) :
  process_row captions_dir url_column video_count idx row c w = Raise w' →
  w' = w ∧ makedirs captions_dir (w_fs w) = None.
Proof.
  destruct (row_get row url_column) as [[|u url]|] eqn:Hurl.
  1, 3: by rewrite process_row_no_url by (by rewrite Hurl).
  destruct (get_video_id (VStr (u :: url))) as [video_id|] eqn:Hid.
  2: { by rewrite (process_row_invalid _ _ _ _ _ _ _ _ Hurl). }
  rewrite (process_row_valid _ _ _ _ _ _ _ _ _ Hurl Hid).
  destruct (path_exists (w_fs w)
              (expected_file captions_dir video_id (lit "en"))) eqn:Hex.
  { by rewrite (download_captions_exists _ _ _ _ _ Hex). }
  destruct (makedirs captions_dir (w_fs w)) as [f1|] eqn:Hmk.
  - destruct (subprocess_run
                (ytdlp_cmd (lit "en") (path_join captions_dir video_id) (u :: url))
                60 f1) as [r f2] eqn:Hrun.
    rewrite (download_captions_runs _ _ _ _ _ _ _ _ Hex Hmk Hrun).
    by destruct r as [returncode| |e]; [destruct (_ && _)| |].
  - rewrite (download_captions_raises _ _ _ _ _ Hex Hmk). by intros [= <-].
Qed.


(** X1.  A run of the tool that times out or raises, whatever the
    message of the exception and whatever the tool has written by then, is
    recorded as a failure of the row: the error counter goes up by one, the
    two other counters stay, and the loop goes on. *)
Theorem failed_run_is_an_error (captions_dir url_column : str)
    (video_count idx : nat) (row : Row) (c : counters) (url video_id : str)
    (w : world) (f1 f2 : fs) (r : run_result) :
  row_get row url_column = Some url →
  get_video_id (VStr url) = Some video_id →
  path_exists (w_fs w) (expected_file captions_dir video_id (lit "en")) = false →
  makedirs captions_dir (w_fs w) = Some f1 →
  subprocess_run
    (ytdlp_cmd (lit "en") (path_join captions_dir video_id) url) 60 f1
  = (r, f2) →
  (∀ returncode, r ≠ Completed returncode) →
  process_row captions_dir url_column video_count idx row c w
  = Ok (Counters (success_count c) (skip_count c) (S (error_count c)))
      (World _ f2
         (w_calls w
          ++ [ytdlp_cmd (lit "en") (path_join captions_dir video_id) url])
         (w_out w
          ++ [PFailure idx video_count video_id (failure_message r)])).
Proof.
  intros Hurl Hid Hex Hmk Hrun Hr.
  rewrite (process_row_valid _ _ _ _ _ _ _ _ _ Hurl Hid).
  rewrite (download_captions_runs _ _ _ _ _ _ _ _ Hex Hmk Hrun).
  destruct r as [returncode| |e]; [by destruct (Hr returncode)|done|done].
Qed.

(** X10.  A row whose address is a string that no shape matches is
    reported as an invalid address and counted as an error; no command is run
    for it and the file system is not touched. *)
Theorem invalid_url_is_an_error (captions_dir url_column : str)
    (video_count idx : nat) (row : Row) (c : counters) (url : str) (w : world) :
  row_get row url_column = Some url →
  url ≠ [] →
  Forall (λ sh, ¬ shape_matches sh url) shapes →
  process_row captions_dir url_column video_count idx row c w
  = Ok (Counters (success_count c) (skip_count c) (S (error_count c)))
      (World _ (w_fs w) (w_calls w) (w_out w ++ [PInvalid idx video_count])).
Proof.
  intros Hurl Hne Hno.
  apply (process_row_invalid _ _ _ _ _ _ _ _ Hurl Hne).
  rewrite get_video_id_str. by apply shape_search_None.
Qed.

(** ** The loop *)

Lemma process_rows_lines (captions_dir url_column : str)
    (video_count idx : nat) (rows : list Row) (c c' : counters) (w w' : world) :
  process_rows captions_dir url_column video_count idx rows c w = Ok c' w' →
  ∃ ls, w_out w' = w_out w ++ ls ∧
        total c' = (total c + length ls)%nat ∧
        line_index <$> ls
        = (λ i, Some (i, video_count)) <$> url_positions url_column idx rows.
Proof.
  revert idx c w. induction rows as [|row rows IH]; intros idx c w.
  { intros [= <- <-]. exists []. rewrite app_nil_r. split; [done|].
    split; [simpl; lia | done]. }
  cbn [process_rows]. unfold bind.
  destruct (process_row captions_dir url_column video_count idx row c w)
    as [c1 w1|w1] eqn:Hrow; [|done].
  intros Hrest.
  apply process_row_lines in Hrow as (ls1 & Hout1 & Htotal1 & Hidx1).
  apply IH in Hrest as (ls2 & Hout2 & Htotal2 & Hidx2).
  exists (ls1 ++ ls2). split; [by rewrite Hout2, Hout1, app_assoc|].
  split; [rewrite length_app; lia|].
  rewrite fmap_app, Hidx1, Hidx2. cbn [url_positions].
  by destruct (decide (has_url url_column row)).
Qed.

(** X2.  When the loop comes to its end, it has printed one line for
    each row that has an address, in the order of the rows and numbered with
    the position of the row, and has moved one of the three counters by one for
    each such line: the counters add up to the number of rows with an address,
    and a row without address leaves a gap in the numbers. *)
Theorem loop_counts_rows_with_url (captions_dir url_column : str)
    (video_count idx : nat) (rows : list Row) (c c' : counters) (w w' : world) :
  process_rows captions_dir url_column video_count idx rows c w = Ok c' w' →
  ∃ ls, w_out w' = w_out w ++ ls ∧
        line_index <$> ls
        = (λ i, Some (i, video_count)) <$> url_positions url_column idx rows ∧
        length ls = length (filter (has_url url_column) rows) ∧
        (success_count c' + skip_count c' + error_count c'
         = success_count c + skip_count c + error_count c
           + length (filter (has_url url_column) rows))%nat.
Proof.
  intros (ls & Hout & Htotal & Hidx)%process_rows_lines.
  assert (length ls = length (filter (has_url url_column) rows)) as Hlen.
  { rewrite <- (url_positions_length url_column idx rows).
    rewrite <- (length_fmap line_index ls), Hidx. by rewrite length_fmap. }
  exists ls. repeat split; try done.
  unfold total in Htotal. lia.
Qed.

(** X3.  The loop ends in an exception only when [os.makedirs] raised:
    the world it stops in is one in which the captions directory cannot be
    created.  Whatever the tool does, it does not end the loop. *)
Theorem loop_raises_only_from_makedirs (captions_dir url_column : str)
    (video_count idx : nat) (rows : list Row) (c : counters) (w w' : world) :
  process_rows captions_dir url_column video_count idx rows c w = Raise w' →
  makedirs captions_dir (w_fs w') = None.
Proof.
  revert idx c w. induction rows as [|row rows IH]; intros idx c w; [done|].
  cbn [process_rows]. unfold bind.
  destruct (process_row captions_dir url_column video_count idx row c w)
    as [c1 w1|w1] eqn:Hrow.
  - apply IH.
  - intros [= <-]. by apply process_row_raise in Hrow as [-> ?].
Qed.


End MoreDispatcher.

(** * More on a whole run *)

Lemma report_lines_plain (has_fulltext : bool) (skipped needing : nat)
    (l : line) :
  l ∈ report_lines has_fulltext skipped needing →
  reports_no_download l = true ∧ ∀ t n s k e, l ≠ PSummary t n s k e.
Proof.
  unfold report_lines. destruct (has_fulltext && (0 <? skipped)%nat); simpl;
    rewrite ?elem_of_cons, elem_of_nil; intros H; destruct_or!; by subst.
Qed.

Section MoreRun.
Context `{os : OS}.

Lemma dispatch_cases (rows : list Row) (url_column : str) :
  (rows ≠ [] ∧ has_column rows url_column = false) ∨
  (rows = [] ∨ has_column rows url_column = true).
Proof.
  destruct rows as [|row0 rows']; [right; by left|].
  destruct (has_column (row0 :: rows') url_column);
    [right; by right | by left].
Qed.

Lemma needing_sub (rows : list Row) (url_column : str) (row : Row) :
  row ∈ (if has_column rows (lit "fullText")
         then List.filter needs_captions (category_filter url_column rows)
         else category_filter url_column rows) →
  row ∈ rows.
Proof.
  destruct (has_column rows (lit "fullText")).
  - intros ?%List_filter_elem_of. by eapply category_filter_sub.
  - apply category_filter_sub.
Qed.

Lemma needing_length (rows : list Row) (url_column : str) :
  (length (if has_column rows (lit "fullText")
           then List.filter needs_captions (category_filter url_column rows)
           else category_filter url_column rows)
   ≤ length (category_filter url_column rows))%nat.
Proof.
  destruct (has_column rows (lit "fullText")); [apply List_filter_length | done].
Qed.

Lemma dispatch_ok_true (rows : list Row) (captions_dir url_column : str)
    (w w' : world) (b : bool) :
  rows = [] ∨ has_column rows url_column = true →
  dispatch rows captions_dir url_column w = Ok b w' → b = true.
Proof.
  intros Hcol. rewrite dispatch_unfold by done. cbv zeta.
  destruct (length _ =? 0)%nat; [by intros [= <- _]|].
  match goal with
  | |- context [process_rows ?a ?b ?n ?i ?l ?c ?w0] =>
      destruct (process_rows a b n i l c w0)
  end; [by intros [= <- _] | done].
Qed.

Lemma dispatch_no_column_world (rows : list Row)
    (captions_dir url_column : str) (w : world) :
  rows ≠ [] → has_column rows url_column = false →
  final_world (dispatch rows captions_dir url_column w)
  = printed w (PNoColumn url_column).
Proof.
  intros Hne Hcol. rewrite dispatch_no_column by done.
  by destruct (has_surplus rows).
Qed.




(** X5.  The summary a run prints is consistent: the number of videos
    that need captions is at least one and at most the number of matched
    videos, which is at most the number of rows; the three counters add up to
    at most the number of videos that need captions; and without a [fullText]
    column every matched video needs captions. *)
Theorem summary_is_consistent (rows : list Row) (captions_dir url_column : str)
    (w w' : world) (b : bool) :
  dispatch rows captions_dir url_column w = Ok b w' →
  ∀ t n s k e,
    PSummary t n s k e ∈ drop (length (w_out w)) (w_out w') →
    (0 < n ≤ t)%nat ∧ (t ≤ length rows)%nat ∧ (s + k + e ≤ n)%nat ∧
    (has_column rows (lit "fullText") = false → n = t).
Proof.
  intros Hrun t n s k e Hin.
  destruct (dispatch_cases rows url_column) as [[Hne Hcol]|Hcol].
  { rewrite dispatch_no_column in Hrun by done.
    destruct (has_surplus rows); [done|]. injection Hrun as <- <-.
    cbn [printed w_out] in Hin. rewrite drop_app_length in Hin.
    by apply list_elem_of_singleton in Hin. }
  rewrite dispatch_unfold in Hrun by done. cbv zeta in Hrun.
  pose proof (needing_length rows url_column) as Hnt.
  pose proof (category_filter_length url_column rows) as Htr.
  set (matched := category_filter url_column rows) in *.
  set (ft := has_column rows (lit "fullText")) in *.
  set (needing := if ft then List.filter needs_captions matched else matched)
    in *.
  destruct (length needing =? 0)%nat eqn:Hz.
  { injection Hrun as <- <-.
    cbn [printed report_filters w_out] in Hin.
    rewrite <- app_assoc, drop_app_length in Hin.
    apply elem_of_app in Hin as [Hin|Hin].
    - destruct (report_lines_plain _ _ _ _ Hin) as [_ Hno].
      by destruct (Hno t n s k e).
    - by apply list_elem_of_singleton in Hin. }
  apply Nat.eqb_neq in Hz.
  destruct (process_rows captions_dir url_column (length needing) 1 needing
              (Counters 0 0 0) _) as [c wl|wl] eqn:Hloop; [|done].
  injection Hrun as <- <-.
  destruct (process_rows_effect captions_dir url_column (length needing) 1
              needing (Counters 0 0 0)
              (report_filters w ft (length matched - length needing)
                 (length needing))) as [_ Hbound].
  specialize (Hbound _ _ Hloop). unfold total in Hbound. simpl in Hbound.
  apply process_rows_lines in Hloop as (ls & Hout & _ & Hidx).
  cbn [printed report_filters w_out] in Hin, Hout. rewrite Hout in Hin.
  rewrite <- !app_assoc, drop_app_length in Hin.
  apply elem_of_app in Hin as [Hin|Hin].
  { destruct (report_lines_plain _ _ _ _ Hin) as [_ Hno].
    by destruct (Hno t n s k e). }
  apply elem_of_app in Hin as [Hin|Hin].
  { apply (list_elem_of_fmap_2 line_index) in Hin. rewrite Hidx in Hin.
    by apply list_elem_of_fmap in Hin as (i & ? & _). }
  apply list_elem_of_singleton in Hin. injection Hin as -> -> -> -> ->.
  repeat split; try lia.
  intros Hft. unfold needing. by rewrite Hft.
Qed.

(** ** When every caption is there *)

Lemma process_rows_captioned (captions_dir url_column : str)
    (video_count idx : nat) (rows : list Row) (c : counters) (w : world) :
  all_captioned captions_dir url_column rows (w_fs w) →
  ∃ c' ls,
    process_rows captions_dir url_column video_count idx rows c w
    = Ok c' (World _ (w_fs w) (w_calls w) (w_out w ++ ls)) ∧
    success_count c' = success_count c ∧
    Forall (λ l, reports_no_download l = true) ls.
Proof.
  revert idx c w. induction rows as [|row rows IH]; intros idx c w Hall.
  { exists c, []. rewrite app_nil_r, world_eta. by repeat split. }
  cbn [process_rows]. unfold bind.
  assert (∃ c1 ls1,
    process_row captions_dir url_column video_count idx row c w
    = Ok c1 (World _ (w_fs w) (w_calls w) (w_out w ++ ls1)) ∧
    success_count c1 = success_count c ∧
    Forall (λ l, reports_no_download l = true) ls1)
    as (c1 & ls1 & -> & Hc1 & Hls1).
  { destruct (row_get row url_column) as [[|u url]|] eqn:Hurl.
    1, 3: rewrite process_row_no_url by (by rewrite Hurl);
      exists c, []; rewrite app_nil_r, world_eta; by repeat split.
    destruct (get_video_id (VStr (u :: url))) as [video_id|] eqn:Hid.
    - rewrite (process_row_valid _ _ _ _ _ _ _ _ _ Hurl Hid).
      rewrite download_captions_exists
        by (apply (Hall row (u :: url) video_id); [left|done..]).
      eexists _, [_]. split; [done|]. split; [done|]. by repeat constructor.
    - rewrite (process_row_invalid _ _ _ _ _ _ _ _ Hurl) by done.
      eexists _, [_]. split; [done|]. split; [done|]. by repeat constructor. }
  destruct (IH (S idx) c1 (World _ (w_fs w) (w_calls w) (w_out w ++ ls1)))
    as (c' & ls2 & -> & Hc' & Hls2).
  { intros r url video_id Hr. apply Hall. by right. }
  exists c', (ls1 ++ ls2). cbn [w_fs w_calls w_out]. rewrite <- app_assoc.
  split; [done|]. split; [congruence | by apply Forall_app].
Qed.

(** X12.  When the caption file of every row is there already, a run of
    the dispatcher changes nothing: whatever the tool would have done, it
    runs no command, leaves the file system as it is and reports no download;
    and it returns [True] unless there are rows without the address column. *)
Theorem captioned_rows_run_nothing (rows : list Row)
    (captions_dir url_column : str) (w : world) :
  all_captioned captions_dir url_column rows (w_fs w) →
  ∃ ls,
    final_world (dispatch rows captions_dir url_column w)
    = World _ (w_fs w) (w_calls w) (w_out w ++ ls) ∧
    Forall (λ l, reports_no_download l = true) ls ∧
    (rows = [] ∨ column_present rows url_column →
     dispatch rows captions_dir url_column w
     = Ok true (World _ (w_fs w) (w_calls w) (w_out w ++ ls))).
Proof.
  intros Hall.
  destruct (dispatch_cases rows url_column) as [[Hne Hcol]|Hcol].
  { rewrite dispatch_no_column_world by done. exists [PNoColumn url_column].
    split; [done|]. split; [by repeat constructor|].
    intros [?|Hp%has_column_present]; [done | congruence]. }
  rewrite dispatch_unfold by done. cbv zeta.
  set (matched := category_filter url_column rows).
  set (ft := has_column rows (lit "fullText")).
  set (needing := if ft then List.filter needs_captions matched else matched).
  set (report := report_lines ft (length matched - length needing)
                   (length needing)).
  assert (Forall (λ l, reports_no_download l = true) report) as Hreport.
  { apply Forall_forall. intros l Hl.
    by destruct (report_lines_plain _ _ _ _ Hl). }
  destruct (length needing =? 0)%nat.
  { exists (report ++ [PNothingToDo]).
    unfold printed, report_filters. cbn [final_world w_fs w_calls w_out].
    rewrite <- app_assoc.
    split; [done|]. split; [|done].
    apply Forall_app. split; [done | by repeat constructor]. }
  destruct (process_rows_captioned captions_dir url_column (length needing) 1
              needing (Counters 0 0 0)
              (report_filters w ft (length matched - length needing)
                 (length needing))) as (c' & ls & -> & Hc' & Hls).
  { intros row url video_id Hrow. apply Hall.
    by apply (needing_sub rows url_column). }
  eexists (report ++ ls ++ [_]).
  unfold printed, report_filters. cbn [final_world w_fs w_calls w_out].
  rewrite <- !app_assoc.
  split; [done|]. split; [|done]. apply Forall_app. split; [done|].
  apply Forall_app. split; [done|].
  repeat constructor. cbn in Hc'. by rewrite Hc'.
Qed.

(** ** Rows the filters drop *)


End MoreRun.

(** * More on [process_csv], [main] and the paths *)

Section MoreMain.
Context `{os : OS}.

(** X8.  [process_csv] returns [False] exactly when it gives up: the
    version probe fails, the file cannot be read, or it has rows and no
    address column; an empty file without that column is no failure.  When it
    returns [False] it has run the probe and nothing else. *)
Theorem process_csv_false_iff (csv_file captions_dir url_column : str)
    (w w' : world) (b : bool) :
  process_csv csv_file captions_dir url_column w = Ok b w' →
  (b = false ↔ gives_up csv_file url_column (w_fs w)) ∧
  (b = false →
   w_fs w' = (subprocess_run probe_cmd 5 (w_fs w)).2 ∧
   w_calls w' = w_calls w ++ [probe_cmd]).
Proof.
  rewrite process_csv_unfold. cbv zeta. unfold gives_up.
  destruct (subprocess_run probe_cmd 5 (w_fs w)) as [r f1]. cbn [fst snd].
  assert (r = Completed 0 ∨ r ≠ Completed 0) as [->|Hr].
  { destruct r as [[|p|p]| |e]; auto; by right. }
  2: { intros Hrun.
       assert (b = false ∧ w' = printed (World _ f1 (w_calls w ++ [probe_cmd])
                                           (w_out w)) PNoTool) as [-> ->].
       { destruct r as [[|p|p]| |e]; [by destruct Hr|..];
           by injection Hrun as <- <-. }
       split; [split; auto | done]. }
  destruct (read_csv csv_file f1) as [rows|].
  2: { intros [= <- <-]. split; [split; auto | done]. }
  destruct (dispatch_cases rows url_column) as [[Hne Hcol]|Hcol].
  - rewrite dispatch_no_column by done.
    destruct (has_surplus rows); [done|]. intros [= <- <-].
    split; [|done]. split; [|done]. intros _. right; right. by exists rows.
  - intros Hrun. pose proof (dispatch_ok_true _ _ _ _ _ _ Hcol Hrun) as ->.
    split; [|done]. split; [done|].
    intros [|[|(rows' & [= <-] & Hne & Hno)]]; try done.
    destruct Hcol; congruence.
Qed.

(** X9.  The script exits with 0 exactly when no fail-fast condition
    holds and no exception escapes. *)
Theorem exit_zero_iff (getenv : str → option str) (argv : list str)
    (w : world) :
  exit_status (main getenv argv w) = 0%Z ↔
  ¬ fail_fast (csv_file_arg getenv argv) (lit "url") (w_fs w) ∧
  ∃ code w', main getenv argv w = Ok code w'.
Proof.
  split.
  - intros Hexit. split.
    + intros (Hone & _)%(fail_fast_exits_1 getenv argv w).
      by rewrite Hone in Hexit.
    + destruct (main getenv argv w) as [code w'|w']; [by eexists _, _|done].
  - intros [Hno (code & w' & Hmain)]. rewrite Hmain. cbn [exit_status].
    rewrite main_unfold, process_csv_unfold in Hmain. cbv zeta in Hmain.
    unfold fail_fast in Hno.
    destruct (path_exists (w_fs w) (csv_file_arg getenv argv));
      [|destruct Hno; by left].
    destruct (subprocess_run probe_cmd 5 (w_fs w)) as [r f1]. cbn [fst snd] in *.
    assert (r = Completed 0 ∨ r ≠ Completed 0) as [->|Hr].
    { destruct r as [[|p|p]| |e]; auto; by right. }
    2: { destruct Hno; auto. }
    destruct (read_csv (csv_file_arg getenv argv) f1) as [rows|];
      [|destruct Hno; auto].
    destruct (dispatch_cases rows (lit "url")) as [[Hne Hcol]|Hcol].
    { destruct Hno. right; right; right. exists rows.
      split; [done|]. split; [done|].
      intros Hp%has_column_present. congruence. }
    match type of Hmain with
    | context [dispatch ?rs ?d ?c ?w0] =>
        destruct (dispatch rs d c w0) as [b w1|w1] eqn:Hd; [|done]
    end.
    apply dispatch_ok_true in Hd as ->; [|done]. by injection Hmain as <- _.
Qed.
End MoreMain.

(** X11.  The file whose presence is tested is the output prefix handed
    to the tool, followed by the language and [srt].  For a directory that
    is not empty and does not end in a slash, and an identifier that does not
    start with one, it is the file of that name in the directory; for an
    identifier that starts with a slash it is an absolute path, and the
    directory plays no part in it. *)
Theorem expected_file_shape (output_dir video_id language : str) :
  expected_file output_dir video_id language
  = path_join output_dir video_id ++ lit "." ++ language ++ lit ".srt" ∧
  (output_dir ≠ [] → ends_with_slash output_dir = false →
   starts_with_slash video_id = false →
   expected_file output_dir video_id language
   = output_dir ++ lit "/" ++ video_id ++ lit "." ++ language ++ lit ".srt") ∧
  (starts_with_slash video_id = true →
   expected_file output_dir video_id language
   = video_id ++ lit "." ++ language ++ lit ".srt" ∧
   path_join output_dir video_id = video_id).
Proof.
  split; [by rewrite expected_file_written|]. split.
  - intros Hne Hend Hstart. unfold expected_file, path_join.
    assert (starts_with_slash (video_id ++ lit "." ++ language ++ lit ".srt")
            = false) as ->.
    { by destruct video_id. }
    by rewrite bool_decide_eq_false_2, Hend by done.
  - intros Hstart. unfold expected_file, path_join. rewrite Hstart.
    destruct video_id as [|c video_id]; [done|]. simpl in *. by rewrite Hstart.
Qed.

(** X13.  A row needs captions exactly when it has no [fullText], or
    one that is [None], empty, or made of whitespace characters only. *)
Theorem needs_captions_blank (row : Row) :
  needs_captions row = true ↔
  ∀ text, row !! lit "fullText" = Some (Some text) →
          Forall (λ c, isspace c = true) text.
Proof.
  rewrite needs_captions_spec. unfold has_text. split.
  - intros Hno text Htext. apply Forall_forall. intros c Hc.
    destruct (decide (strip text = [])) as [Hs|Hs].
    + apply strip_empty_iff in Hs. rewrite forallb_forall in Hs.
      apply Hs. by apply list_elem_of_In.
    + destruct Hno. by exists text.
  - intros Hblank (text & Htext & Hs). apply Hs, strip_empty_iff.
    apply forallb_forall. intros c Hc%list_elem_of_In.
    specialize (Hblank text Htext). rewrite Forall_forall in Hblank. auto.
Qed.

(** * The theorems at concrete inputs *)

Lemma stub_tool_always_succeeds : tool_always_succeeds (mem_os stub_tool).
Proof.
  intros language output_base url timeout f.
  exists (MemFs ((output_base ++ lit "." ++ language ++ lit ".srt", [])
                 :: files f) (dirs f)).
  split; [done|]. split.
  - unfold path_exists, mem_os, mem_exists, mem_is_file. cbn [files existsb fst].
    by rewrite bool_decide_eq_true_2.
  - intros path. unfold path_exists, mem_os, mem_exists, mem_is_file.
    cbn [files dirs existsb]. intros [->| ->]%orb_true_iff.
    + by rewrite orb_true_r.
    + by rewrite !orb_true_r.
Qed.

Lemma mem_makedirs_keeps_files tool : makedirs_keeps_files (mem_os tool).
Proof.
  intros path f f'. unfold makedirs, mem_os, mem_makedirs.
  destruct (bool_decide (path = [])); [done|].
  destruct (existsb _ _); [done|]. intros [= <-] p.
  unfold path_exists, mem_exists, mem_is_file. cbn [files dirs].
  intros [->|Hd%bool_decide_eq_true]%orb_true_iff; [done|].
  rewrite (bool_decide_eq_true_2 (p ∈ path :: dirs f)) by by right.
  apply orb_true_r.
Qed.

Lemma get_video_id_spec_witness :
  get_video_id (VInt 7) = None ∧
  get_video_id (VStr (lit "https://vimeo.com/1234")) = None ∧
  get_video_id (VStr (lit "https://youtube.com/embed/xyz&t=1"))
  = Some (lit "xyz").
Proof.
  destruct get_video_id_spec as (Hnot & Hnone & Hfirst).
  split; [by apply Hnot|]. split.
  - apply Hnone. repeat constructor; by apply id_search_None.
  - apply (Hfirst _ 1%nat [lit "youtube.com/embed/"]); [done| |].
    + intros [|m] sh' Hm Hsh; [|lia].
      change (Some [lit "youtube.com/watch?v="; lit "youtu.be/"] = Some sh') in Hsh.
      injection Hsh as <-. by apply id_search_None.
    + by apply id_search_Some.
Defined.

Lemma get_video_id_unanchored_witness :
  ∃ id, get_video_id
          (VStr (lit "evil.example/?u=" ++ lit "youtube.com/v/" ++ 120 :: lit "yz"))
        = Some id.
Proof.
  apply (proj1 get_video_id_unanchored); [|done].
  rewrite !elem_of_cons. auto.
Defined.


Lemma existing_file_is_skipped_witness :
  let os := mem_os stub_tool in
  let w := mem_world stub_tool captioned_fs in
  @download_captions os (lit "https://youtu.be/abc123") (lit "abc123")
    (lit "captions") (lit "en") w = Ok AlreadyExists w ∧
  @process_row os (lit "captions") (lit "url") 1 1 row_with_url
    (Counters 0 0 0) w
  = Ok (Counters 0 1 0)
      (@World os captioned_fs [] [PSkipped 1 1 (lit "abc123")]).
Proof.
  cbv zeta.
  apply (@existing_file_is_skipped (mem_os stub_tool) (lit "captions") (lit "url")
           1 1 row_with_url (Counters 0 0 0) (lit "https://youtu.be/abc123")
           (lit "abc123") (mem_world stub_tool captioned_fs));
    by vm_compute.
Defined.

Lemma row_without_url_is_not_counted_witness :
  @process_row (mem_os stub_tool) (lit "captions") (lit "url") 3 2 row_empty_url
    (Counters 1 0 0) (mem_world stub_tool (MemFs [] []))
  = Ok (Counters 1 0 0) (mem_world stub_tool (MemFs [] [])).
Proof.
  apply (proj1 row_without_url_is_not_counted).
  intros (url & Hurl & Hne). vm_compute in Hurl. congruence.
Defined.

Lemma category_filter_spec_witness :
  category_filter (lit "url") scenario_rows = filter is_youtube scenario_rows ∧
  category_filter (lit "url") [row_of [("url", "https://youtu.be/abc123")]%string]
  = filter (has_url (lit "url")) [row_of [("url", "https://youtu.be/abc123")]%string].
Proof.
  split.
  - apply (proj1 (category_filter_spec (lit "url") scenario_rows)).
    split; exists row_vimeo; (split; [done|]); vm_compute; by eexists.
  - apply (proj2 (category_filter_spec (lit "url") _)).
    intros [(row0 & [= <-] & Hk) _]. vm_compute in Hk. by destruct Hk.
Defined.

Lemma fulltext_rows_are_skipped_witness :
  let os := mem_os stub_tool in
  let w := mem_world stub_tool (MemFs [] []) in
  let matched := category_filter (lit "url") scenario_rows in
  let needing := filter (λ row, ¬ has_text row) matched in
  let skipped := filter has_text matched in
  let w0 := report_filters w true (length skipped) (length needing) in
  let loop := @process_rows os (lit "captions") (lit "url") (length needing) 1
                needing (Counters 0 0 0) w0 in
  (length matched - length needing = length skipped)%nat ∧
  @dispatch os scenario_rows (lit "captions") (lit "url") w
  = (if negb (has_column scenario_rows (lit "url"))
     then if has_surplus scenario_rows
          then Raise (printed w (PNoColumn (lit "url")))
          else Ok false (printed w (PNoColumn (lit "url")))
     else if decide (needing = []) then Ok true (printed w0 PNothingToDo)
     else match loop with
          | Ok c w1 =>
              Ok true
                (printed w1
                   (PSummary (length matched) (length needing)
                      (success_count c) (skip_count c) (error_count c)))
          | Raise w1 => Raise w1
          end) ∧
  (∃ new,
     w_calls (final_world
                (@dispatch os scenario_rows (lit "captions") (lit "url") w))
     = w_calls w ++ new ∧
     Forall (λ cmd, ∃ row, row ∈ matched ∧ ¬ has_text row ∧
                           row_command (lit "captions") (lit "url") row cmd) new) ∧
  (∀ c w1, loop = Ok c w1 →
           (success_count c + skip_count c + error_count c
            ≤ length needing)%nat) ∧
  (∀ row, row ∈ needing ↔
          row ∈ matched ∧
          ∀ text, row !! lit "fullText" = Some (Some text) →
                  Forall (λ ch, isspace ch = true) text).
Proof.
  apply (@fulltext_rows_are_skipped (mem_os stub_tool) scenario_rows
           (lit "captions") (lit "url") (mem_world stub_tool (MemFs [] []))).
  exists row_vimeo. split; [done|]. vm_compute. by eexists.
Defined.

Lemma second_run_downloads_nothing_witness :
  let os := mem_os stub_tool in
  let w := mem_world stub_tool (MemFs [] []) in
  let w1 := final_world
              (@dispatch os scenario_rows (lit "captions") (lit "url") w) in
  ∃ ls w2,
    w_out w1 = w_out w ++ ls ∧
    @dispatch os scenario_rows (lit "captions") (lit "url") w1 = Ok true w2 ∧
    w_fs w2 = w_fs w1 ∧ w_calls w2 = w_calls w1 ∧
    w_out w2 = w_out w1 ++ (second_run_line <$> ls) ∧
    (∀ idx n video_id message,
       PSuccess idx n video_id message ∈ ls →
       PSkipped idx n video_id ∈ second_run_line <$> ls) ∧
    (∀ idx n video_id message,
       PSuccess idx n video_id message ∉ second_run_line <$> ls) ∧
    (∀ t n success skip error,
       PSummary t n success skip error ∈ second_run_line <$> ls →
       success = 0%nat).
Proof.
  cbv zeta.
  apply (@second_run_downloads_nothing (mem_os stub_tool)
           stub_tool_always_succeeds (mem_makedirs_keeps_files stub_tool)
           scenario_rows (lit "captions") (lit "url")
           (mem_world stub_tool (MemFs [] []))).
  by vm_compute.
Defined.

(** * The further theorems at concrete inputs *)

Lemma failed_run_is_an_error_witness :
  @process_row (mem_os slow_tool) (lit "captions") (lit "url") 1 1 row_with_url
    (Counters 0 0 0) (mem_world slow_tool (MemFs [] []))
  = Ok (Counters 0 0 1)
      (@World (mem_os slow_tool) (MemFs [] [lit "captions"])
         [ytdlp_cmd (lit "en") (lit "captions/abc123")
            (lit "https://youtu.be/abc123")]
         [PFailure 1 1 (lit "abc123") (lit "Timeout")]).
Proof.
  apply (@failed_run_is_an_error (mem_os slow_tool) (lit "captions") (lit "url")
           1 1 row_with_url (Counters 0 0 0) (lit "https://youtu.be/abc123")
           (lit "abc123") (mem_world slow_tool (MemFs [] []))
           (MemFs [] [lit "captions"]) (MemFs [] [lit "captions"])
           TimeoutExpired); done.
Defined.

Lemma invalid_url_is_an_error_witness :
  @process_row (mem_os stub_tool) (lit "captions") (lit "url") 1 1 row_vimeo
    (Counters 0 0 0) (mem_world stub_tool (MemFs [] []))
  = Ok (Counters 0 0 1)
      (@World (mem_os stub_tool) (MemFs [] []) [] [PInvalid 1 1]).
Proof.
  apply (@invalid_url_is_an_error (mem_os stub_tool) (lit "captions") (lit "url")
           1 1 row_vimeo (Counters 0 0 0) (lit "https://vimeo.com/1234")
           (mem_world stub_tool (MemFs [] []))); [done..|].
  repeat constructor; by apply id_search_None.
Defined.

Lemma loop_counts_rows_with_url_witness :
  let os := mem_os stub_tool in
  let w := mem_world stub_tool (MemFs [] []) in
  let rows := [row_empty_url; row_with_url; row_short] in
  let w' := final_world
              (@process_rows os (lit "captions") (lit "url") 3 1 rows
                 (Counters 0 0 0) w) in
  ∃ ls, w_out w' = w_out w ++ ls ∧
        line_index <$> ls
        = (λ i, Some (i, 3%nat)) <$> url_positions (lit "url") 1 rows ∧
        length ls = length (filter (has_url (lit "url")) rows) ∧
        (1 + 0 + 0
         = 0 + 0 + 0 + length (filter (has_url (lit "url")) rows))%nat.
Proof.
  cbv zeta.
  apply (@loop_counts_rows_with_url (mem_os stub_tool) (lit "captions") (lit "url")
           3 1 [row_empty_url; row_with_url; row_short] (Counters 0 0 0)
           (Counters 1 0 0) (mem_world stub_tool (MemFs [] []))).
  by vm_compute.
Defined.

Lemma loop_raises_only_from_makedirs_witness :
  @makedirs (mem_os stub_tool) (lit "brain.csv/captions") brain_fs = None.
Proof.
  apply (@loop_raises_only_from_makedirs (mem_os stub_tool)
           (lit "brain.csv/captions") (lit "url") 1 1 [row_with_url]
           (Counters 0 0 0) (mem_world stub_tool brain_fs)
           (mem_world stub_tool brain_fs)).
  by vm_compute.
Defined.

Lemma summary_is_consistent_witness :
  (0 < 1 ≤ 2)%nat ∧ (2 ≤ length scenario_rows)%nat ∧ (1 + 0 + 0 ≤ 1)%nat ∧
  (has_column scenario_rows (lit "fullText") = false → 1%nat = 2%nat).
Proof.
  apply (@summary_is_consistent (mem_os stub_tool) scenario_rows (lit "captions")
           (lit "url") (mem_world stub_tool (MemFs [] []))
           (final_world (@dispatch (mem_os stub_tool) scenario_rows
                           (lit "captions") (lit "url")
                           (mem_world stub_tool (MemFs [] []))))
           true).
  - by vm_compute.
  - vm_compute. do 3 right. left.
Defined.

Lemma captioned_rows_run_nothing_witness :
  let os := mem_os stub_tool in
  let w := mem_world stub_tool captioned_fs in
  ∃ ls,
    final_world (@dispatch os [row_with_url] (lit "captions") (lit "url") w)
    = @World os captioned_fs [] (w_out w ++ ls) ∧
    Forall (λ l, reports_no_download l = true) ls ∧
    ([row_with_url] = [] ∨ column_present [row_with_url] (lit "url") →
     @dispatch os [row_with_url] (lit "captions") (lit "url") w
     = Ok true (@World os captioned_fs [] (w_out w ++ ls))).
Proof.
  cbv zeta.
  apply (@captioned_rows_run_nothing (mem_os stub_tool) [row_with_url]
           (lit "captions") (lit "url") (mem_world stub_tool captioned_fs)).
  intros row url video_id ->%list_elem_of_singleton Hurl Hid.
  vm_compute in Hurl. injection Hurl as <-.
  vm_compute in Hid. injection Hid as <-. by vm_compute.
Defined.

Lemma process_csv_false_iff_witness :
  let os := mem_os missing_tool in
  let w := mem_world missing_tool brain_fs in
  (false = false ↔ @gives_up os (lit "brain.csv") (lit "url") (w_fs w)) ∧
  (false = false →
   w_fs (@World os brain_fs [probe_cmd] [PNoTool])
   = (@subprocess_run os probe_cmd 5 (w_fs w)).2 ∧
   w_calls (@World os brain_fs [probe_cmd] [PNoTool])
   = w_calls w ++ [probe_cmd]).
Proof.
  cbv zeta.
  apply (@process_csv_false_iff (mem_os missing_tool) (lit "brain.csv")
           (lit "captions") (lit "url") (mem_world missing_tool brain_fs)).
  by vm_compute.
Defined.

Lemma get_video_id_of_link_witness :
  get_video_id
    (VStr (lit "https://" ++ lit "youtu.be/" ++ lit "abc123" ++ lit "&t=1"))
  = Some (lit "abc123").
Proof.
  apply get_video_id_of_link.
  - right. left.
  - by repeat constructor.
  - done.
  - by repeat constructor.
  - right. by eexists _, _.
Defined.

Lemma get_video_id_inversion_witness :
  Forall (λ sh, ¬ shape_matches sh (lit "https://vimeo.com/1234")) shapes ∧
  ∃ url n sh,
    VStr (lit "https://youtu.be/abc123") = VStr url ∧ shapes !! n = Some sh ∧
    (∀ m sh', (m < n)%nat → shapes !! m = Some sh' → ¬ shape_matches sh' url) ∧
    first_occurrence sh url (lit "abc123").
Proof.
  split.
  - by apply (proj1 get_video_id_inversion).
  - by apply (proj2 get_video_id_inversion).
Defined.

Lemma expected_file_shape_witness :
  expected_file (lit "captions") (lit "abc123") (lit "en")
  = lit "captions" ++ lit "/" ++ lit "abc123" ++ lit "." ++ lit "en" ++ lit ".srt" ∧
  expected_file (lit "captions") (lit "/tmp/x") (lit "en")
  = lit "/tmp/x" ++ lit "." ++ lit "en" ++ lit ".srt" ∧
  path_join (lit "captions") (lit "/tmp/x") = lit "/tmp/x".
Proof.
  split.
  - by apply (proj1 (proj2 (expected_file_shape (lit "captions") (lit "abc123")
                              (lit "en")))).
  - by apply (proj2 (proj2 (expected_file_shape (lit "captions") (lit "/tmp/x")
                              (lit "en")))).
Defined.

Lemma needs_captions_blank_witness : needs_captions row_eligible = true.
Proof.
  apply needs_captions_blank. intros text Htext.
  vm_compute in Htext. injection Htext as <-. by repeat constructor.
Defined.

Lemma exit_zero_iff_witness :
  exit_status
    (@main (mem_os stub_tool) (λ _, None)
       [lit "downloadYoutubeSrts.py"; lit "brain.csv"; lit "captions"]
       (mem_world stub_tool brain_fs))
  = 0%Z.
Proof.
  apply exit_zero_iff. split.
  - intros [H|[H|[H|(rows & H & _ & Hcol)]]];
      [vm_compute in H; done..|].
    change (Some [row_with_url] = Some rows) in H. injection H as <-.
    apply Hcol. exists row_with_url. split; [done|].
    vm_compute. by eexists.
  - eexists _, _. by vm_compute.
Defined.
